(** * images.py: weighted attribute sampling and batch output

    A shallow embedding of [images.py].  The [random] module is an
    external source of values; every value it hands out is an explicit
    argument of the function that asks for it.

    The weighted letter sampler is embedded twice.  [Binary64] is the
    sampler as Python runs it: a [float] is an IEEE 754 binary64 value,
    here a primitive float, and [sum], [*], [-=] and [<] are the rounded
    operations and the IEEE comparison.  [Sampler] is the same code over
    exact rationals ([Q]), the weights carrying the decimal values written
    in the source: the arithmetic in which the expected frequencies of the
    letters are computed.  The selection rule of the sampler and its
    result when no entry stops the loop are established for [Binary64];
    the item pipeline and the distribution check take their letter
    through [Sampler]. *)

From Stdlib Require Import PrimFloat SpecFloat FloatOps FloatAxioms.
From Stdlib Require Import Ascii QArith Lqa.
From stdpp Require Import gmap strings list pretty.

(** ** Outcomes of a call *)

(** The only exception the modelled code can meet is the [IndexError] of
    [random.choice] (an empty sequence, or [seq[i]] out of range). *)
Inductive exn := IndexError.

Inductive result (A : Type) :=
  | Ok (a : A)
  | Raise (e : exn).
Arguments Ok {A} a.
Arguments Raise {A} e.

Global Instance result_ret : MRet result := fun A a => Ok a.
Global Instance result_bind : MBind result := fun A B f r =>
  match r with
  | Ok a => f a
  | Raise e => Raise e
  end.

(** ** The weighted letter sampler, in exact arithmetic *)

Module Sampler.
Local Open Scope Q_scope.

(** [LETTERS.items()]: a dict in insertion order, so keys are distinct. *)
Definition WeightTable := list (string * Q).

Definition keys (t : WeightTable) : list string := fst <$> t.
Definition values (t : WeightTable) : list Q := snd <$> t.

(** Python's [sum]: start at 0, add from the left. *)
Definition sum (l : list Q) : Q := fold_left Qplus l 0.

(** The [for k, v in LETTERS.items()] loop of [get_random_letter]; falling
    off the end of the loop is Python's implicit [return None]. *)
Fixpoint loop (items : WeightTable) (rand : Q) : option string :=
  match items with
  | [] => None
  | (k, v) :: rest =>
      let rand := rand - v in
      if Qlt_le_dec rand 0 then Some k else loop rest rand
  end.

(** [get_random_letter] over a table [letters]; [random] is the value of
    [random.random()]. *)
Definition get_random_letter_of (letters : WeightTable) (random : Q)
  : result (option string) :=
  let rand := random * sum (values letters) in
  Ok (loop letters rand).

Definition LETTERS : WeightTable := [
  ("a", 0.0846402860096712); ("h", 0.026430828106619526);
  ("e", 0.10772176322650225); ("d", 0.03238955368790574);
  ("i", 0.08956630698939853); ("n", 0.0719479487121524);
  ("g", 0.023643469967582403); ("s", 0.0716180211960545);
  ("l", 0.05577434674781033); ("m", 0.030104955866114096);
  ("r", 0.07043308637891531); ("v", 0.009464312744959735);
  ("k", 0.007672746241673479); ("w", 0.006411696316744151);
  ("o", 0.07199344608861344); ("f", 0.011227836840112776);
  ("c", 0.0437750575370124); ("t", 0.06606991659100463);
  ("u", 0.03762718877433788); ("b", 0.018296526718835086);
  ("y", 0.02019654294337122); ("x", 0.0030025406994062735);
  ("j", 0.001561218150763426); ("p", 0.03252432893515823);
  ("z", 0.004222671600222851); ("q", 0.0016834029290581443)
]%string.

Definition get_random_letter (random : Q) : result (option string) :=
  get_random_letter_of LETTERS random.

(** *** Specification vocabulary *)

(** Sum of the weights of the entries that come before key [k]. *)
Fixpoint before (k : string) (items : WeightTable) : Q :=
  match items with
  | [] => 0
  | (k', v) :: rest => if decide (k' = k) then 0 else v + before k rest
  end.

Definition positive (items : WeightTable) : Prop :=
  Forall (fun kv => 0 < snd kv) items.

Definition all_zero (items : WeightTable) : Prop :=
  Forall (fun kv => snd kv == 0) items.

(** The successive values [rand] takes in the loop when no entry stops it. *)
Fixpoint remainders (items : WeightTable) (rand : Q) : list Q :=
  match items with
  | [] => []
  | (_, v) :: rest => (rand - v) :: remainders rest (rand - v)
  end.

End Sampler.

(** ** The weighted letter sampler in binary64 *)

Module Binary64.
Local Open Scope float_scope.
#[local] Set Warnings "-inexact-float".

(** [LETTERS.items()], the weights being binary64 values. *)
Definition WeightTable := list (string * float).

Definition keys (t : WeightTable) : list string := fst <$> t.
Definition values (t : WeightTable) : list float := snd <$> t.

(** Python's [sum]: start at 0, add from the left, each addition rounded.
    (CPython 3.12 and later also carry a correction term through a sum of
    floats; for a table of two weights the result is the same.) *)
Definition sum (l : list float) : float := fold_left PrimFloat.add l 0.

(** The [for k, v in LETTERS.items()] loop of [get_random_letter]:
    [rand -= v] is the rounded subtraction, [rand < 0] the IEEE comparison
    (false on a NaN); falling off the end of the loop is Python's implicit
    [return None]. *)
Fixpoint loop (items : WeightTable) (rand : float) : option string :=
  match items with
  | [] => None
  | (k, v) :: rest =>
      let rand := rand - v in
      if rand <? 0 then Some k else loop rest rand
  end.

(** [get_random_letter] over a table [letters]; [random] is the value of
    [random.random()], and the product is rounded. *)
Definition get_random_letter_of (letters : WeightTable) (random : float)
  : result (option string) :=
  let rand := random * sum (values letters) in
  Ok (loop letters rand).

Definition LETTERS : WeightTable := [
  ("a", 0.0846402860096712); ("h", 0.026430828106619526);
  ("e", 0.10772176322650225); ("d", 0.03238955368790574);
  ("i", 0.08956630698939853); ("n", 0.0719479487121524);
  ("g", 0.023643469967582403); ("s", 0.0716180211960545);
  ("l", 0.05577434674781033); ("m", 0.030104955866114096);
  ("r", 0.07043308637891531); ("v", 0.009464312744959735);
  ("k", 0.007672746241673479); ("w", 0.006411696316744151);
  ("o", 0.07199344608861344); ("f", 0.011227836840112776);
  ("c", 0.0437750575370124); ("t", 0.06606991659100463);
  ("u", 0.03762718877433788); ("b", 0.018296526718835086);
  ("y", 0.02019654294337122); ("x", 0.0030025406994062735);
  ("j", 0.001561218150763426); ("p", 0.03252432893515823);
  ("z", 0.004222671600222851); ("q", 0.0016834029290581443)
]%string.

Definition get_random_letter (random : float) : result (option string) :=
  get_random_letter_of LETTERS random.

(** *** Specification vocabulary *)

Definition positive (items : WeightTable) : Prop :=
  Forall (fun kv => (0 <? snd kv) = true) items.

(** What [random.random()] can return: a value of [[0, 1)]. *)
Definition unit_interval (u : float) : Prop :=
  (0 <=? u) = true /\ (u <? 1) = true.

(** The largest value [random.random()] can return, [1 - 2^-53]. *)
Definition random_max : float := 0x1.fffffffffffffp-1.


Fixpoint remainders (items : WeightTable) (rand : float) : list float :=
  match items with
  | [] => []
  | (_, v) :: rest => (rand - v) :: remainders rest (rand - v)
  end.

Definition not_negative (x : float) : Prop := (x <? 0) = false.

End Binary64.

(** ** Python values stored in the metadata *)

(** A field of [MetaData] holds what the samplers return: a [str], or the
    [None] that [get_random_letter] returns when its loop ends. *)
Inductive pyval :=
  | PStr (s : string)
  | PNone.

Definition pyval_of (o : option string) : pyval :=
  match o with
  | Some s => PStr s
  | None => PNone
  end.

(** ** The palette sampler *)

Module Palette.

(** [_DARKS.items()], [_LIGHTS.items()]: colour code and integer weight, in
    insertion order. *)
Definition Weights := list (string * Z).

Definition _DARKS : Weights :=
  [("171212", 5); ("002500", 4); ("083b49", 3); ("3d2b00", 2); ("3c011d", 1)]%Z.
Definition _LIGHTS : Weights :=
  [("f58eb9", 5); ("e19451", 4); ("f8f4a6", 3); ("bdf7b7", 2); ("b1b5e7", 1)]%Z.

(** [[x for k, v in t.items() for x in [k] * v]]; [[k] * v] is empty for
    [v <= 0]. *)
Definition expand (t : Weights) : list string :=
  t ≫= λ kv, replicate (Z.to_nat kv.2) kv.1 ≫= λ x, [x].

Definition DARKS : list string := expand _DARKS.
Definition LIGHTS : list string := expand _LIGHTS.

(** [random.choice(seq)]: [i] is the index the generator draws below
    [len(seq)]; an empty sequence, like any index out of range, is an
    [IndexError]. *)
Definition choice {A} (seq : list A) (i : nat) : result A :=
  match seq !! i with
  | Some x => Ok x
  | None => Raise IndexError
  end.

(** A [str] as the sequence of its one-character strings. *)
Fixpoint chars (s : string) : list string :=
  match s with
  | EmptyString => []
  | String c s' => String c EmptyString :: chars s'
  end.

(** [get_random_hex_color(pallete)].  [None] is the omitted argument;
    [not pallete] holds for [None] and for the empty list.  [rnd n] is the
    index drawn by the [n]-th call of [random.choice]. *)
Definition get_random_hex_color (pallete : option (list string)) (rnd : nat -> nat)
  : result string :=
  match pallete with
  | Some ((_ :: _) as pallete) =>
      c ← choice pallete (rnd 0%nat);
      mret ("#" +:+ c)
  | _ =>
      cs ← mapM (λ n, choice (chars "abcdef01234567") (rnd n)) (seq 0 6);
      mret ("#" +:+ String.concat "" cs)
  end.

(** *** Specification vocabulary *)

Definition hex_alphabet : list string := chars "0123456789abcdef".

(** The indices below [len(seq)] at which [seq] holds [x]. *)
Definition indices_of (x : string) (seq : list string) : list nat :=
  filter (λ i, seq !! i = Some x) (List.seq 0 (length seq)).

Definition total_weight (t : Weights) : Z :=
  foldr Z.add 0%Z (t.*2).

End Palette.

(** ** The metadata record *)

Module Meta.

Record MetaData := mkMetaData {
  bg_color : pyval;
  letter : pyval;
  letter_color : pyval
}.

(** A Python dict, as its items in insertion order. *)
Definition dict := list (string * pyval).

(** [self.__dict__]: the attributes [__init__] assigns, in assignment
    order. *)
Definition __dict__ (self : MetaData) : dict :=
  [("bg_color", bg_color self); ("letter", letter self);
   ("letter_color", letter_color self)].

Definition to_dict (self : MetaData) : dict :=
  [("bg_color", bg_color self); ("letter", letter self);
   ("letter_color", letter_color self)].

(** [k[0] != "_"]; every attribute name is non-empty. *)
Definition public (k : string) : bool :=
  match k with
  | String c _ => negb (Ascii.eqb c "_"%char)
  | EmptyString => true
  end.

Definition trait (k : string) (v : pyval) : dict :=
  [("trait_type", PStr k); ("value", v)].

Definition as_os_metadata (self : MetaData) : list dict :=
  (λ kv, trait kv.1 kv.2) <$> filter (λ kv, public kv.1 = true) (__dict__ self).

End Meta.

(** ** Image composition and the batch *)

Module Batch.
Import Sampler Palette Meta.

Definition TOTAL_IMAGES : nat := 1000.
Definition SIZE : nat * nat := (1024, 1024)%nat.
Definition EXT : string := ".jpg".
Definition FONT_SIZE : nat := 512.

(** What Pillow is asked to render; rasterisation itself is not modelled. *)
Record Image := mkImage {
  im_size : nat * nat;
  im_color : string;
  im_text : pyval;
  im_fill : string;
  im_font_size : nat
}.

(** The values the [random] module hands out during one [gen_image]. *)
Record Draws := mkDraws {
  bg_index : nat;
  fg_index : nat;
  letter_random : Q
}.

Definition gen_image (d : Draws) : result (Image * MetaData) :=
  bg_color ← get_random_hex_color (Some DARKS) (λ _, bg_index d);
  letter_color ← get_random_hex_color (Some LIGHTS) (λ _, fg_index d);
  letter ← get_random_letter (letter_random d);
  let bg := mkImage SIZE bg_color (pyval_of letter) letter_color FONT_SIZE in
  mret (bg, mkMetaData (PStr bg_color) (pyval_of letter) (PStr letter_color)).

(** An entry of the output directory: an image, or the text
    [json.dumps] writes for a list of trait objects. *)
Inductive content :=
  | ImageFile (image : Image)
  | JsonFile (doc : list dict).

(** The output directory, by file name. *)
Abbreviation Dir := (gmap string content).

Definition save_output (image_name : string) (image : Image) (meta : MetaData)
    (out : Dir) : Dir :=
  <[image_name +:+ "-meta.json" := JsonFile (as_os_metadata meta)]>
    (<[image_name +:+ EXT := ImageFile image]> out).

(** [str(i)] for a non-negative [int]. *)
Definition str (i : nat) : string := pretty i.

(** The [for i in range(...)] loop of [generate_images]; [rnd i] are the
    draws of iteration [i].  An exception ends the loop and leaves what
    was written so far. *)
Fixpoint generate_loop (rnd : nat -> Draws) (range : list nat) (out : Dir)
  : Dir * result unit :=
  match range with
  | [] => (out, Ok tt)
  | i :: range' =>
      match gen_image (rnd i) with
      | Ok (img, meta) => generate_loop rnd range' (save_output (str i) img meta out)
      | Raise e => (out, Raise e)
      end
  end.

Definition generate_images_of (total : nat) (rnd : nat -> Draws) (out : Dir)
  : Dir * result unit :=
  generate_loop rnd (seq 0 total) out.

Definition generate_images : (nat -> Draws) -> Dir -> Dir * result unit :=
  generate_images_of TOTAL_IMAGES.

(** *** Specification vocabulary *)

(** The draws respect the [random] module: each index is below the length
    of its sequence, and [random()] lies in [[0, 1)]. *)
Definition in_range (d : Draws) : Prop :=
  (bg_index d < length DARKS)%nat /\ (fg_index d < length LIGHTS)%nat /\
  (0 <= letter_random d /\ letter_random d < 1)%Q.

Definition is_image (c : content) : bool :=
  match c with ImageFile _ => true | JsonFile _ => false end.

Definition is_meta (c : content) : bool :=
  match c with ImageFile _ => false | JsonFile _ => true end.

Definition image_name (i : nat) : string := str i +:+ EXT.
Definition meta_name (i : nat) : string := str i +:+ "-meta.json".

Definition images (out : Dir) : Dir := filter (λ kc, is_image kc.2 = true) out.
Definition metas (out : Dir) : Dir := filter (λ kc, is_meta kc.2 = true) out.

(** What the directory holds after items [0 .. n-1] were saved into an
    empty one: nothing but their files, both files of each of them, [n]
    images and [n] metadata files. *)
Definition written (rnd : nat -> Draws) (n : nat) (out : Dir) : Prop :=
  (forall name c, out !! name = Some c ->
     exists i, i < n /\
       ((name = image_name i /\ is_image c = true) \/
        (name = meta_name i /\ is_meta c = true))) /\
  (forall i, i < n ->
     exists img meta, gen_image (rnd i) = Ok (img, meta) /\
       out !! image_name i = Some (ImageFile img) /\
       out !! meta_name i = Some (JsonFile (as_os_metadata meta))) /\
  size (images out) = n /\ size (metas out) = n.

End Batch.

(** ** The letter distribution check *)

Module Distribution.
Import Sampler.

(** The [counts] dict: its keys are what [get_random_letter] returns, a
    letter or [None]. *)
Abbreviation Counts := (gmap (option string) nat).

(** The body of the counting loop: [counts[letter] += 1] when
    [letter in counts], [counts[letter] = 1] otherwise. *)
Definition tally (letter : option string) (counts : Counts) : Counts :=
  match counts !! letter with
  | Some n => <[letter := n + 1]> counts
  | None => <[letter := 1]> counts
  end.

(** [for i in range(total)] over the table [letters]; [draws] holds the
    successive [random.random()] values. *)
Fixpoint count_loop (letters : WeightTable) (draws : list Q) (counts : Counts)
  : result Counts :=
  match draws with
  | [] => Ok counts
  | u :: draws' =>
      letter ← get_random_letter_of letters u;
      count_loop letters draws' (tally letter counts)
  end.

(** [{k: v / total for k, v in counts.items()}], as a map: the order of
    the items is not kept. *)
Definition frequency (total v : nat) : Q :=
  (inject_Z (Z.of_nat v) / inject_Z (Z.of_nat total))%Q.

Definition check_letter_distribution_of (letters : WeightTable) (total : nat)
    (rnd : nat -> Q) : result (gmap (option string) Q) :=
  match count_loop letters (rnd <$> seq 0 total) ∅ with
  | Ok counts => Ok (frequency total <$> counts)
  | Raise e => Raise e
  end.

Definition check_letter_distribution : (nat -> Q) -> result (gmap (option string) Q) :=
  check_letter_distribution_of LETTERS 1000000.

(** *** Specification vocabulary *)

Global Instance exn_eq_dec : EqDecision exn.
Proof. solve_decision. Defined.
Global Instance result_eq_dec `{EqDecision A} : EqDecision (result A).
Proof. solve_decision. Defined.

(** How many of the draws make the sampler return [letter]. *)
Definition occurrences (letters : WeightTable) (letter : option string)
    (draws : list Q) : nat :=
  length (filter (λ u, get_random_letter_of letters u = Ok letter) draws).

(** The sum of all counters. *)
Definition counted (counts : Counts) : nat :=
  sum_list ((map_to_list counts).*2).

End Distribution.

(** ** Clearing the output directory *)

Module Cleanup.
Import Batch.

(** An entry of the output directory: a file, or a subdirectory with
    whatever it holds. *)
Inductive entry :=
  | File (c : content)
  | Folder.

Abbreviation Listing := (gmap string entry).

(** A call on the file system ends normally or raises [OSError]. *)
Inductive os_result (A : Type) :=
  | Done (a : A)
  | OSError.
Arguments Done {A} a.
Arguments OSError {A}.

(** [shutil.rmtree(path)] removes a directory tree; on a file, or on a
    missing path, it raises an [OSError]. *)
Definition rmtree (path : string) (d : Listing) : os_result Listing :=
  match d !! path with
  | Some Folder => Done (delete path d)
  | _ => OSError
  end.

(** [os.remove(path)] removes a file; on a directory, or on a missing
    path, it raises an [OSError]. *)
Definition remove (path : string) (d : Listing) : os_result Listing :=
  match d !! path with
  | Some (File _) => Done (delete path d)
  | _ => OSError
  end.

Definition listdir (d : Listing) : list string := (map_to_list d).*1.

(** One iteration: [try: rmtree(path) except OSError: remove(path)]. *)
Definition clear_entry (file : string) (d : Listing) : os_result Listing :=
  match rmtree file d with
  | Done d' => Done d'
  | OSError => remove file d
  end.

Fixpoint clear_loop (files : list string) (d : Listing) : os_result Listing :=
  match files with
  | [] => Done d
  | file :: files' =>
      match clear_entry file d with
      | Done d' => clear_loop files' d'
      | OSError => OSError
      end
  end.

Definition clear_output_dir (d : Listing) : os_result Listing :=
  clear_loop (listdir d) d.

(** The directory a batch run leaves, every entry being a file. *)
Definition files_of (out : Dir) : Listing := File <$> out.

End Cleanup.

(** * Properties *)

Module SamplerFacts.
Import Sampler.
Local Open Scope Q_scope.

Lemma fold_left_Qplus_acc (l : list Q) (a : Q) :
  fold_left Qplus l a == a + fold_left Qplus l 0.
Proof.
  revert a; induction l as [|v l IH]; intros a; simpl.
  - lra.
  - rewrite (IH (a + v)), (IH (0 + v)). lra.
Qed.

Lemma sum_cons (v : Q) (l : list Q) : sum (v :: l) == v + sum l.
Proof. unfold sum; simpl. rewrite fold_left_Qplus_acc. lra. Qed.

Lemma sum_nil : sum [] == 0.
Proof. reflexivity. Qed.

Lemma loop_key items r k : loop items r = Some k -> k ∈ keys items.
Proof.
  revert r; induction items as [|[k' v] rest IH]; intros r; simpl.
  - discriminate.
  - destruct (Qlt_le_dec (r - v) 0).
    + intros [= ->]. left.
    + intros H. right. exact (IH _ H).
Qed.

Lemma positive_cons k v rest :
  positive ((k, v) :: rest) <-> 0 < v /\ positive rest.
Proof. unfold positive. rewrite Forall_cons. reflexivity. Qed.

Lemma before_bounds items k w :
  positive items -> NoDup (keys items) -> (k, w) ∈ items ->
  0 <= before k items /\ before k items + w <= sum (values items).
Proof.
  induction items as [|[k' v] rest IH]; simpl; intros Hpos Hnd Hin.
  - inversion Hin.
  - apply positive_cons in Hpos as [Hv Hpos].
    apply NoDup_cons in Hnd as [Hk' Hnd].
    assert (Hrest : 0 <= sum (values rest)).
    { clear -Hpos. induction rest as [|[k1 v1] rest IH]; simpl.
      - rewrite sum_nil. lra.
      - apply positive_cons in Hpos as [? ?]. rewrite sum_cons. specialize (IH ltac:(done)). lra. }
    rewrite sum_cons.
    apply elem_of_cons in Hin as [Heq|Hin].
    + injection Heq as -> ->. rewrite decide_True by done. lra.
    + destruct (decide (k' = k)) as [->|Hne].
      * exfalso. apply Hk'. exact (list_elem_of_fmap_2 fst _ _ Hin).
      * destruct (IH Hpos Hnd Hin). lra.
Qed.

Lemma loop_interval items k w r :
  positive items -> NoDup (keys items) -> (k, w) ∈ items -> 0 <= r ->
  loop items r = Some k <-> before k items <= r < before k items + w.
Proof.
  revert r; induction items as [|[k' v] rest IH]; simpl; intros r Hpos Hnd Hin Hr.
  - inversion Hin.
  - apply positive_cons in Hpos as [Hv Hpos].
    apply NoDup_cons in Hnd as [Hk' Hnd].
    apply elem_of_cons in Hin as [Heq|Hin].
    + injection Heq as -> ->. rewrite decide_True by done.
      destruct (Qlt_le_dec (r - v) 0) as [Hlt|Hge].
      * split; [intros _; lra | done].
      * split; [|lra]. intros H. exfalso. apply Hk'. exact (loop_key _ _ _ H).
    + assert (Hne : k' <> k).
      { intros ->. apply Hk'. exact (list_elem_of_fmap_2 fst _ _ Hin). }
      rewrite decide_False by done.
      destruct (before_bounds rest k w Hpos Hnd Hin) as [Hb _].
      destruct (Qlt_le_dec (r - v) 0) as [Hlt|Hge].
      * split; [intros [= ?]; done | lra].
      * rewrite (IH (r - v) Hpos Hnd Hin Hge). lra.
Qed.

Lemma scale_interval (T lo w u : Q) :
  0 < T -> lo <= u * T < lo + w <-> lo / T <= u < lo / T + w / T.
Proof.
  intros HT.
  assert (Ha : lo / T * T == lo) by (field; lra).
  assert (Hc : w / T * T == w) by (field; lra).
  rewrite <- (Qmult_le_r (lo / T) u T HT).
  rewrite <- (Qmult_lt_r u (lo / T + w / T) T HT).
  rewrite Qmult_plus_distr_l, Ha, Hc. reflexivity.
Qed.

Lemma sum_nonneg items : positive items -> 0 <= sum (values items).
Proof.
  induction items as [|[k v] rest IH]; simpl; intros Hpos.
  - rewrite sum_nil. lra.
  - apply positive_cons in Hpos as [Hv Hpos]. rewrite sum_cons.
    specialize (IH Hpos). lra.
Qed.

Lemma sum_positive items : positive items -> items <> [] -> 0 < sum (values items).
Proof.
  destruct items as [|[k v] rest]; [done|]. simpl; intros Hpos _.
  apply positive_cons in Hpos as [Hv Hpos]. rewrite sum_cons.
  pose proof (sum_nonneg rest Hpos). lra.
Qed.

Lemma loop_none_remainders items r :
  loop items r = None <-> Forall (fun x => 0 <= x) (remainders items r).
Proof.
  revert r; induction items as [|[k v] rest IH]; intros r; simpl.
  - split; [constructor | done].
  - rewrite Forall_cons, <- IH.
    destruct (Qlt_le_dec (r - v) 0) as [Hlt|Hge].
    + split; [done | intros [? _]; lra].
    + tauto.
Qed.

Lemma loop_triggers items r :
  positive items -> 0 <= r < sum (values items) ->
  exists k, loop items r = Some k /\ k ∈ keys items.
Proof.
  revert r; induction items as [|[k v] rest IH]; simpl; intros r Hpos Hr.
  - rewrite sum_nil in Hr. lra.
  - apply positive_cons in Hpos as [Hv Hpos]. rewrite sum_cons in Hr.
    destruct (Qlt_le_dec (r - v) 0) as [Hlt|Hge].
    + exists k. split; [done | left].
    + destruct (IH (r - v) Hpos) as (k' & Hk' & Hin); [lra|].
      exists k'. split; [done | right; done].
Qed.

Lemma loop_exhausts items r :
  positive items -> sum (values items) <= r -> loop items r = None.
Proof.
  revert r; induction items as [|[k v] rest IH]; simpl; intros r Hpos Hr; [done|].
  apply positive_cons in Hpos as [Hv Hpos]. rewrite sum_cons in Hr.
  pose proof (sum_nonneg rest Hpos).
  destruct (Qlt_le_dec (r - v) 0) as [Hlt|Hge]; [lra|].
  apply IH; [done | lra].
Qed.

Lemma all_zero_sum items : all_zero items -> sum (values items) == 0.
Proof.
  induction 1 as [|[k v] rest Hv _ IH]; simpl in *.
  - apply sum_nil.
  - rewrite sum_cons, IH, Hv. lra.
Qed.

Lemma all_zero_loop items r : all_zero items -> 0 <= r -> loop items r = None.
Proof.
  intros Hz; revert r; induction Hz as [|[k v] rest Hv _ IH]; simpl in *; intros r Hr; [done|].
  destruct (Qlt_le_dec (r - v) 0) as [Hlt|Hge]; [lra|].
  apply IH. done.
Qed.

Lemma get_random_letter_of_triggers (items : WeightTable) (u : Q) :
  positive items -> items <> [] -> 0 <= u < 1 ->
  exists k, get_random_letter_of items u = Ok (Some k) /\ k ∈ keys items.
Proof.
  intros Hpos Hne [Hu0 Hu1]. pose proof (sum_positive items Hpos Hne) as HT.
  destruct (loop_triggers items (u * sum (values items)) Hpos) as (k & Hk & Hin).
  - split; [apply Qmult_le_0_compat; lra|].
    rewrite <- (Qmult_1_l (sum (values items))) at 2.
    apply Qmult_lt_compat_r; done.
  - exists k. unfold get_random_letter_of. rewrite Hk. done.
Qed.

(** ** The sampler in exact arithmetic *)

(** With exact arithmetic in place of binary64: for a table of distinct
    keys with positive weights and an entry [(k, w)], the remainders that
    the subtraction loop maps to [k] form an interval of length [w] inside
    [[0, total)]: with [lo] the sum of the weights before [k], a remainder
    [r >= 0] yields [k] exactly when [lo <= r < lo + w]; and the [random()]
    values [u] that yield [k] form the interval
    [[lo/total, lo/total + w/total)], which lies in [[0, 1]]. *)
Lemma loop_exact_interval (items : WeightTable) (k : string) (w : Q) :
  positive items -> NoDup (keys items) -> (k, w) ∈ items ->
  0 <= before k items /\
  before k items + w <= sum (values items) /\
  (forall r, 0 <= r ->
     loop items r = Some k <-> before k items <= r < before k items + w) /\
  0 <= before k items / sum (values items) /\
  before k items / sum (values items) + w / sum (values items) <= 1 /\
  (forall u, 0 <= u ->
     get_random_letter_of items u = Ok (Some k) <->
     before k items / sum (values items) <= u
       < before k items / sum (values items) + w / sum (values items)).
Proof.
  intros Hpos Hnd Hin.
  destruct (before_bounds items k w Hpos Hnd Hin) as [Hlo Hhi].
  assert (HT : 0 < sum (values items)).
  { apply sum_positive; [done|]. intros ->. inversion Hin. }
  set (T := sum (values items)) in *. set (lo := before k items) in *.
  assert (Ha : lo / T * T == lo) by (field; lra).
  assert (Hc : w / T * T == w) by (field; lra).
  split; [done|]. split; [done|].
  split; [intros r Hr; apply loop_interval; done|].
  split.
  { apply Qle_shift_div_l; [done|]. lra. }
  split.
  { rewrite <- (Qmult_le_r _ _ T HT), Qmult_plus_distr_l, Ha, Hc. lra. }
  intros u Hu. subst T lo. unfold get_random_letter_of.
  rewrite <- scale_interval by done.
  rewrite <- (loop_interval items k w (u * sum (values items))); [|done..|].
  - split; [intros [= ->]; done | intros ->; done].
  - apply Qmult_le_0_compat; lra.
Qed.

Lemma LETTERS_positive : positive LETTERS.
Proof. unfold positive, LETTERS. repeat constructor. Qed.

Lemma LETTERS_keys_NoDup : NoDup (keys LETTERS).
Proof. apply (bool_decide_unpack _). vm_compute. exact I. Qed.

(** ** Claims on the weighted sampler *)

(** C3, as the code has it.  [get_random_letter] validates nothing and
    raises nothing: whatever the table, it returns; on the empty table and
    on a table whose weights are all 0 it returns [None], after one pass
    over the table and without dividing. *)
Theorem get_random_letter_no_validation (items : WeightTable) (u : Q) :
  (exists v, get_random_letter_of items u = Ok v) /\
  (all_zero items -> get_random_letter_of items u = Ok None).
Proof.
  split; [eexists; reflexivity|].
  intros Hz. unfold get_random_letter_of. f_equal.
  apply all_zero_loop; [done|].
  rewrite (all_zero_sum items Hz). lra.
Qed.

Lemma get_random_letter_no_validation_witness :
  all_zero [("a", 0); ("b", 0)]%string /\
  get_random_letter_of [("a", 0); ("b", 0)]%string 0.5 = Ok None.
Proof.
  assert (Hz : all_zero [("a", 0); ("b", 0)]%string).
  { repeat constructor. }
  split; [exact Hz|].
  exact (proj2 (get_random_letter_no_validation _ 0.5) Hz).
Defined.

(** C3, as the spec has it, fails: the empty table, a table of zero
    weights and a table holding one weight [<= 0] all return normally,
    the last one with a key. *)
Lemma get_random_letter_never_raises :
  get_random_letter_of [] 0.5 = Ok None /\
  get_random_letter_of [("a", 0); ("b", 0)]%string 0.5 = Ok None /\
  get_random_letter_of [("a", 1); ("b", 0)]%string 0.5 = Ok (Some "a"%string) /\
  forall e, get_random_letter_of [("a", 0); ("b", 0)]%string 0.5 <> Raise e.
Proof. vm_compute. repeat split; intros; done. Qed.

End SamplerFacts.

(** * The weighted sampler as Python computes it *)

Module Binary64Facts.
Import Binary64.
Local Open Scope float_scope.
#[local] Set Warnings "-inexact-float".

Lemma loop64_key items r k : loop items r = Some k -> k ∈ keys items.
Proof.
  revert r; induction items as [|[k' v] rest IH]; intros r; simpl.
  - discriminate.
  - destruct (r - v <? 0).
    + intros [= ->]. left.
    + intros H. right. exact (IH _ H).
Qed.

Lemma loop64_None items r :
  loop items r = None <-> Forall not_negative (remainders items r).
Proof.
  revert r; induction items as [|[k v] rest IH]; intros r; simpl.
  - split; [constructor | done].
  - rewrite Forall_cons, <- IH. unfold not_negative.
    destruct (r - v <? 0); [split; [done | intros [? _]; done] | tauto].
Qed.


(** ** Claims on the weighted sampler *)



(** C2, as the code has it.  [get_random_letter] returns [None] exactly
    when the loop exhausts the table, that is when no running remainder is
    negative: there is no fall-back to the last entry.  A letter it does
    return is a key of the table. *)
Theorem get_random_letter_exhausted (items : WeightTable) (u : float) :
  (get_random_letter_of items u = Ok None <->
     Forall not_negative (remainders items (u * sum (values items)))) /\
  (forall k, get_random_letter_of items u = Ok (Some k) -> k ∈ keys items).
Proof.
  unfold get_random_letter_of. split.
  - rewrite <- loop64_None. split; [intros [= ->]; done | intros ->; done].
  - intros k [= H]. exact (loop64_key _ _ _ H).
Qed.

Lemma get_random_letter_exhausted_witness :
  get_random_letter random_max = Ok (Some "q"%string) /\
  "q"%string ∈ keys LETTERS.
Proof.
  assert (H : get_random_letter random_max = Ok (Some "q"%string))
    by (vm_compute; reflexivity).
  split; [exact H|].
  exact (proj2 (get_random_letter_exhausted LETTERS random_max) "q"%string H).
Defined.

(** C2, as the spec has it, fails: for the table [{a: 0.03, b: 0.26}] of
    positive weights and the [random()] value [1 - 2^-53] every entry is
    passed without a negative remainder, and the result is [None], not
    the last key [b]. *)
Lemma get_random_letter_no_fallback :
  let items := [("a", 0.03); ("b", 0.26)]%string in
  positive items /\ unit_interval random_max /\
  last (keys items) = Some "b"%string /\
  Forall not_negative (remainders items (random_max * sum (values items))) /\
  get_random_letter_of items random_max = Ok None.
Proof.
  cbv zeta. repeat split; try (vm_compute; reflexivity).
  - repeat constructor.
  - repeat constructor.
Qed.

End Binary64Facts.

Module PaletteFacts.
Import Palette.

(** *** Strings as character sequences *)

Lemma chars_app (s1 s2 : string) : chars (s1 +:+ s2) = chars s1 ++ chars s2.
Proof. induction s1 as [|c s1 IH]; simpl; [done|]. by rewrite IH. Qed.

Lemma length_chars (s : string) : length (chars s) = String.length s.
Proof. induction s as [|c s IH]; simpl; [done|]. by rewrite IH. Qed.

Lemma elem_of_chars_single (c s : string) : c ∈ chars s -> chars c = [c].
Proof.
  induction s as [|a s IH]; simpl; intros Hin.
  - inversion Hin.
  - apply elem_of_cons in Hin as [->|Hin]; [done | by apply IH].
Qed.

Lemma chars_concat (cs : list string) :
  Forall (λ c, chars c = [c]) cs -> chars (String.concat "" cs) = cs.
Proof.
  induction 1 as [|c cs Hc _ IH]; [done|].
  destruct cs as [|c' cs]; [done|].
  change (String.concat "" (c :: c' :: cs))
    with (c +:+ String.concat "" (c' :: cs)).
  by rewrite chars_app, IH, Hc.
Qed.

(** *** [random.choice] and the generator expression *)

Lemma choice_Ok {A} (seq : list A) (i : nat) (x : A) :
  choice seq i = Ok x <-> seq !! i = Some x.
Proof. unfold choice. destruct (seq !! i); split; congruence. Qed.

Lemma choice_in_range {A} (seq : list A) (i : nat) :
  i < length seq -> exists x, seq !! i = Some x /\ choice seq i = Ok x.
Proof.
  intros Hi. destruct (lookup_lt_is_Some_2 seq i Hi) as [x Hx].
  exists x. split; [done | by apply choice_Ok].
Qed.

Lemma mapM_choice_Ok (alphabet : list string) (rnd : nat -> nat) (l : list nat) cs :
  mapM (λ n, choice alphabet (rnd n)) l = Ok cs ->
  Forall2 (λ n c, alphabet !! rnd n = Some c) l cs.
Proof.
  revert cs; induction l as [|n l IH]; intros cs; simpl.
  - intros [= <-]. constructor.
  - destruct (choice alphabet (rnd n)) as [c|e] eqn:Hc; [|discriminate].
    simpl. destruct (mapM _ l) as [cs'|e]; [|discriminate].
    simpl. intros [= <-]. constructor; [by apply choice_Ok | by apply IH].
Qed.

Lemma mapM_choice_in_range (alphabet : list string) (rnd : nat -> nat) (l : list nat) :
  Forall (λ n, rnd n < length alphabet) l ->
  exists cs, mapM (λ n, choice alphabet (rnd n)) l = Ok cs.
Proof.
  induction 1 as [|n l Hn _ [cs IH]]; simpl; [by eexists|].
  destruct (choice_in_range alphabet (rnd n) Hn) as (c & _ & ->).
  simpl. rewrite IH. simpl. by eexists.
Qed.

Lemma fallback_shape (rnd : nat -> nat) (s : string) :
  get_random_hex_color None rnd = Ok s ->
  exists cs, s = "#" +:+ String.concat "" cs /\ chars s = "#" :: cs /\
    length cs = 6 /\ Forall (λ c, c ∈ chars "abcdef01234567") cs.
Proof.
  unfold get_random_hex_color.
  destruct (mapM _ (seq 0 6)) as [cs|e] eqn:Hcs; [|discriminate].
  simpl. intros [= <-]. exists cs.
  apply mapM_choice_Ok in Hcs.
  assert (Hall : Forall (λ c, c ∈ chars "abcdef01234567") cs).
  { clear -Hcs. induction Hcs as [|n c l cs Hc _ IH]; constructor; [|done].
    by eapply list_elem_of_lookup_2. }
  split; [done|]. split.
  - change (chars ("#" +:+ String.concat "" cs)) with ("#" :: chars (String.concat "" cs)).
    f_equal. apply chars_concat.
    eapply Forall_impl; [exact Hall|]. intros c Hc.
    exact (elem_of_chars_single _ _ Hc).
  - split; [|done]. symmetry. exact (Forall2_length _ _ _ Hcs).
Qed.

(** *** Filtering lists *)

Section filter.
Context {A : Type} (P : A -> Prop) `{!∀ x, Decision (P x)}.

Lemma filter_all (l : list A) : Forall P l -> filter P l = l.
Proof.
  induction 1 as [|x l Hx _ IH]; [done|].
  by rewrite filter_cons_True, IH.
Qed.

Lemma filter_none (l : list A) : Forall (λ x, ~ P x) l -> filter P l = [].
Proof.
  induction 1 as [|x l Hx _ IH]; [done|].
  by rewrite filter_cons_False.
Qed.

Lemma length_filter_fmap {B} (f : B -> A) (l : list B) :
  length (filter P (f <$> l)) = length (filter (λ y, P (f y)) l).
Proof.
  induction l as [|y l IH]; [done|].
  rewrite fmap_cons, !filter_cons.
  destruct (decide (P (f y))); simpl; by rewrite IH.
Qed.
End filter.

(** *** Palette construction *)

Lemma expand_nil : expand [] = [].
Proof. reflexivity. Qed.

Lemma expand_cons (k : string) (v : Z) (t : Weights) :
  expand ((k, v) :: t) = replicate (Z.to_nat v) k ++ expand t.
Proof.
  unfold expand. rewrite bind_cons. f_equal. simpl.
  induction (replicate (Z.to_nat v) k) as [|x l IH]; [done|].
  rewrite bind_cons. simpl. by rewrite IH.
Qed.

Lemma elem_of_expand (x : string) (t : Weights) : x ∈ expand t -> x ∈ t.*1.
Proof.
  induction t as [|[k v] t IH]; [by rewrite expand_nil|].
  rewrite expand_cons, elem_of_app, fmap_cons, elem_of_cons. simpl.
  intros [Hx|Hx]; [left | right; by apply IH].
  by apply elem_of_replicate in Hx as [-> _].
Qed.

Lemma length_expand (t : Weights) :
  Forall (λ kv, (0 <= kv.2)%Z) t ->
  Z.of_nat (length (expand t)) = total_weight t.
Proof.
  induction 1 as [|[k v] t Hv _ IH]; [done|].
  rewrite expand_cons, length_app, length_replicate. unfold total_weight in *.
  rewrite fmap_cons. cbn [foldr snd]. rewrite <- IH. simpl in Hv. lia.
Qed.

Lemma occurrences_expand (t : Weights) (k : string) (w : Z) :
  NoDup (t.*1) -> (k, w) ∈ t ->
  length (filter (k =.) (expand t)) = Z.to_nat w.
Proof.
  induction t as [|[k' v] t IH]; intros Hnd Hin; [inversion Hin|].
  rewrite fmap_cons in Hnd. apply NoDup_cons in Hnd as [Hk' Hnd]. simpl in Hk'.
  rewrite expand_cons, filter_app, length_app.
  apply elem_of_cons in Hin as [[= -> ->]|Hin].
  - rewrite filter_all by (apply Forall_replicate; done).
    rewrite length_replicate.
    assert (Hnone : filter (k' =.) (expand t) = []).
    { apply filter_none, Forall_forall. intros x Hx <-.
      apply Hk'. by apply elem_of_expand. }
    rewrite Hnone. simpl. lia.
  - assert (Hne : k <> k').
    { intros ->. apply Hk'. exact (list_elem_of_fmap_2 fst _ _ Hin). }
    assert (Hnone : filter (k =.) (replicate (Z.to_nat v) k') = []).
    { apply filter_none, Forall_replicate. done. }
    rewrite Hnone. simpl. by apply IH.
Qed.

(** The indices that hold [x] are as many as the occurrences of [x]. *)
Lemma length_indices_of (x : string) (seq : list string) :
  length (indices_of x seq) = length (filter (x =.) seq).
Proof.
  unfold indices_of. induction seq as [|a seq IH]; [done|].
  change (List.seq 0 (length (a :: seq))) with (0 :: List.seq 1 (length seq)).
  rewrite <- fmap_S_seq, !filter_cons.
  change ((a :: seq) !! 0) with (Some a).
  assert (Hshift :
    length (filter (λ i, (a :: seq) !! i = Some x) (S <$> List.seq 0 (length seq)))
    = length (filter (x =.) seq)).
  { rewrite length_filter_fmap. exact IH. }
  destruct (decide (a = x)) as [->|Hne].
  - rewrite !decide_True by done. simpl. by rewrite Hshift.
  - rewrite !decide_False by congruence. done.
Qed.

Lemma elem_of_indices_of (x : string) (seq : list string) (i : nat) :
  i ∈ indices_of x seq <-> seq !! i = Some x.
Proof.
  unfold indices_of. rewrite list_elem_of_filter, elem_of_seq. split; [by intros [? _]|].
  intros Hi. split; [done|]. apply lookup_lt_Some in Hi. lia.
Qed.

Lemma palette_path (pallete : list string) (rnd : nat -> nat) :
  pallete <> [] ->
  get_random_hex_color (Some pallete) rnd
  = c ← choice pallete (rnd 0); mret ("#" +:+ c).
Proof. intros Hne. destruct pallete; [done | reflexivity]. Qed.

(** ** Claims on the palette path *)

Lemma palette_Ok (pallete : list string) (rnd : nat -> nat) (s : string) :
  pallete <> [] ->
  get_random_hex_color (Some pallete) rnd = Ok s <->
  exists x, pallete !! rnd 0 = Some x /\ s = "#" +:+ x.
Proof.
  intros Hne. rewrite palette_path by done. unfold choice.
  destruct (pallete !! rnd 0) as [x|]; simpl.
  - split; [intros [= <-]; by exists x | intros (y & [= <-] & ->); done].
  - split; [done | intros (y & [=] & _)].
Qed.

(** C6, as the code has it.  On the expansion of a weight table, when it
    is not empty, every value the sampler returns is ["#"] followed by a
    key of the table, and it returns one whenever the drawn index is below
    the length. *)
Theorem get_random_hex_color_palette_key (t : Weights) (rnd : nat -> nat) :
  expand t <> [] ->
  (forall s, get_random_hex_color (Some (expand t)) rnd = Ok s ->
     exists k, s = "#" +:+ k /\ k ∈ t.*1) /\
  (rnd 0 < length (expand t) ->
     exists s, get_random_hex_color (Some (expand t)) rnd = Ok s).
Proof.
  intros Hne. split.
  - intros s Hs. apply palette_Ok in Hs as (k & Hk & ->); [|done].
    exists k. split; [done|]. apply elem_of_expand. by eapply list_elem_of_lookup_2.
  - intros Hi. destruct (lookup_lt_is_Some_2 _ _ Hi) as [k Hk].
    exists ("#" +:+ k). apply palette_Ok; [done|]. by exists k.
Qed.

Lemma get_random_hex_color_palette_key_witness :
  expand _DARKS <> [] /\
  (forall s, get_random_hex_color (Some DARKS) (λ _, 7) = Ok s ->
     exists k, s = "#" +:+ k /\ k ∈ _DARKS.*1).
Proof.
  assert (Hne : expand _DARKS <> []) by (vm_compute; discriminate).
  split; [exact Hne|].
  exact (proj1 (get_random_hex_color_palette_key _DARKS (λ _, 7) Hne)).
Defined.

(** C6, as the spec has it, fails: the value returned for the dark palette
    at index 0 is ["#171212"], which is a key of neither weight table; and
    a table whose expansion is empty gives a string made on the fallback
    path, whatever its keys. *)
Lemma get_random_hex_color_not_a_key :
  get_random_hex_color (Some DARKS) (λ _, 0) = Ok "#171212" /\
  ("#171212" ∉ _DARKS.*1 ++ _LIGHTS.*1) /\
  get_random_hex_color (Some (expand [("171212", 0%Z)])) (λ n, n) = Ok "#abcdef".
Proof.
  split; [reflexivity|]. split; [|reflexivity].
  apply (bool_decide_unpack _). vm_compute. exact I.
Qed.

(** C7, as the code has it.  For a table of distinct colour codes with
    non-negative integer weights, the expansion has length [Σ weights] and
    holds each code [weight] times; at a drawn index [i] below the length
    the sampler returns ["#"] followed by the element at [i]; so the
    indices at which it returns ["#" + k] are those that hold [k], and
    there are [weight(k)] of them among the [Σ weights] equally likely
    ones. *)
Theorem palette_sampling (t : Weights) :
  NoDup (t.*1) -> Forall (λ kv, (0 <= kv.2)%Z) t ->
  Z.of_nat (length (expand t)) = total_weight t /\
  (forall k w, (k, w) ∈ t -> length (filter (k =.) (expand t)) = Z.to_nat w) /\
  (forall i, i < length (expand t) ->
     exists x, expand t !! i = Some x /\
       get_random_hex_color (Some (expand t)) (λ _, i) = Ok ("#" +:+ x)) /\
  (forall k w, (k, w) ∈ t ->
     (forall i, i < length (expand t) ->
        get_random_hex_color (Some (expand t)) (λ _, i) = Ok ("#" +:+ k) <->
        i ∈ indices_of k (expand t)) /\
     length (indices_of k (expand t)) = Z.to_nat w).
Proof.
  intros Hnd Hpos.
  assert (Hne : forall i, i < length (expand t) -> expand t <> []).
  { intros i Hi Heq. rewrite Heq in Hi. simpl in Hi. lia. }
  split; [by apply length_expand|].
  split; [intros k w Hin; by apply occurrences_expand|].
  split.
  - intros i Hi. destruct (lookup_lt_is_Some_2 _ _ Hi) as [x Hx].
    exists x. split; [done|]. apply palette_Ok; [by eapply Hne|]. by exists x.
  - intros k w Hin. split.
    + intros i Hi. rewrite elem_of_indices_of, palette_Ok by (by eapply Hne).
      split; [|intros Hk; by exists k].
      intros (x & Hx & Heq). by simplify_eq.
    + rewrite length_indices_of. by apply occurrences_expand.
Qed.

Lemma palette_sampling_witness :
  NoDup (_DARKS.*1) /\ Forall (λ kv, (0 <= kv.2)%Z) _DARKS /\
  Z.of_nat (length DARKS) = 15%Z /\
  length (indices_of "083b49" DARKS) = 3.
Proof.
  assert (Hnd : NoDup (_DARKS.*1)).
  { apply (bool_decide_unpack _). vm_compute. exact I. }
  assert (Hpos : Forall (λ kv, (0 <= kv.2)%Z) _DARKS).
  { unfold _DARKS. repeat constructor; simpl; lia. }
  assert (Hin : ("083b49", 3%Z) ∈ _DARKS).
  { unfold _DARKS. do 2 apply list_elem_of_further. apply list_elem_of_here. }
  split; [exact Hnd|]. split; [exact Hpos|].
  destruct (palette_sampling _DARKS Hnd Hpos) as (Hlen & _ & _ & Hidx).
  split; [exact Hlen|].
  exact (proj2 (Hidx "083b49" 3%Z Hin)).
Defined.

(** C7, as the spec has it, fails: at index 0 the dark palette holds
    ["171212"], and the sampler returns ["#171212"]. *)
Lemma get_random_hex_color_not_the_element :
  DARKS !! 0 = Some "171212" /\
  get_random_hex_color (Some DARKS) (λ _, 0) = Ok "#171212" /\
  get_random_hex_color (Some DARKS) (λ _, 0) <> Ok "171212".
Proof. repeat split. discriminate. Qed.

(** ** Claims on the fallback path *)

(** C4, on the code.  Without a palette the result is ["#"] and six
    characters, each taken from ["abcdef01234567"]: all are lowercase hex
    digits, and the hex digits 8 and 9 never occur. *)
Theorem get_random_hex_color_fallback_alphabet (rnd : nat -> nat) (s : string) :
  get_random_hex_color None rnd = Ok s ->
  exists cs, chars s = "#" :: cs /\ length cs = 6 /\
    Forall (λ c, c ∈ chars "abcdef01234567") cs /\
    Forall (λ c, c ∈ hex_alphabet) cs /\
    "8" ∈ hex_alphabet /\ "9" ∈ hex_alphabet /\ ("8" ∉ cs) /\ ("9" ∉ cs).
Proof.
  intros Hs. destruct (fallback_shape rnd s Hs) as (cs & _ & Hchars & Hlen & Hall).
  exists cs. split; [done|]. split; [done|]. split; [done|].
  split.
  { eapply Forall_impl; [exact Hall|]. intros c. revert c.
    apply Forall_forall. apply (bool_decide_unpack _). vm_compute. exact I. }
  split; [apply (bool_decide_unpack _); vm_compute; exact I|].
  split; [apply (bool_decide_unpack _); vm_compute; exact I|].
  rewrite Forall_forall in Hall.
  split; intros Hin; apply Hall in Hin; revert Hin;
    apply (bool_decide_unpack _); vm_compute; exact I.
Qed.

Lemma get_random_hex_color_fallback_alphabet_witness :
  get_random_hex_color None (λ n, n) = Ok "#abcdef" /\
  exists cs, chars "#abcdef" = "#" :: cs /\ length cs = 6 /\
    Forall (λ c, c ∈ chars "abcdef01234567") cs /\
    Forall (λ c, c ∈ hex_alphabet) cs /\
    "8" ∈ hex_alphabet /\ "9" ∈ hex_alphabet /\ ("8" ∉ cs) /\ ("9" ∉ cs).
Proof.
  split; [reflexivity|].
  apply (get_random_hex_color_fallback_alphabet (λ n, n)). reflexivity.
Defined.

(** C9.  An empty palette list takes the same path as an omitted palette;
    with each of the six draws below [len("abcdef01234567") = 14], it
    raises nothing and returns ["#"] followed by six characters. *)
Theorem get_random_hex_color_empty_palette (rnd : nat -> nat) :
  (forall n, n < 6 -> rnd n < 14) ->
  get_random_hex_color (Some []) rnd = get_random_hex_color None rnd /\
  exists t, get_random_hex_color (Some []) rnd = Ok ("#" +:+ t) /\
    String.length t = 6.
Proof.
  intros Hrnd. split; [reflexivity|].
  destruct (mapM_choice_in_range (chars "abcdef01234567") rnd (seq 0 6)) as [cs Hcs].
  { apply Forall_forall. intros n Hn. apply elem_of_seq in Hn.
    change (length (chars "abcdef01234567")) with 14. apply Hrnd. lia. }
  assert (Hres : get_random_hex_color None rnd = Ok ("#" +:+ String.concat "" cs)).
  { unfold get_random_hex_color. rewrite Hcs. reflexivity. }
  exists (String.concat "" cs). split; [exact Hres|].
  destruct (fallback_shape rnd _ Hres) as (cs' & _ & Hchars & Hlen & _).
  change (chars ("#" +:+ String.concat "" cs))
    with ("#" :: chars (String.concat "" cs)) in Hchars.
  injection Hchars as Hchars.
  by rewrite <- length_chars, Hchars.
Qed.

Lemma get_random_hex_color_empty_palette_witness :
  (forall n, n < 6 -> (λ n, n) n < 14) /\
  exists t, get_random_hex_color (Some []) (λ n, n) = Ok ("#" +:+ t) /\
    String.length t = 6.
Proof.
  assert (H : forall n, n < 6 -> (λ n, n) n < 14) by (intros n Hn; simpl; lia).
  split; [exact H|].
  exact (proj2 (get_random_hex_color_empty_palette (λ n, n) H)).
Defined.

End PaletteFacts.

Module MetaFacts.
Import Meta.

(** C10.  The trait list is the dictionary view mapped entry by entry, in
    the same order, to [{"trait_type": key, "value": value}]. *)
Theorem as_os_metadata_to_dict (self : MetaData) :
  as_os_metadata self = (λ kv, trait kv.1 kv.2) <$> to_dict self.
Proof. destruct self. reflexivity. Qed.

End MetaFacts.

Module BatchFacts.
Import Sampler Palette Meta Batch.

(** *** One item *)

Lemma bind_Ok {A B} (a : A) (f : A -> result B) : Ok a ≫= f = f a.
Proof. reflexivity. Qed.

Lemma gen_image_Ok (d : Draws) (bg fg l : string) :
  DARKS !! bg_index d = Some bg -> LIGHTS !! fg_index d = Some fg ->
  get_random_letter (letter_random d) = Ok (Some l) ->
  gen_image d =
    Ok (mkImage SIZE ("#" +:+ bg) (PStr l) ("#" +:+ fg) FONT_SIZE,
        mkMetaData (PStr ("#" +:+ bg)) (PStr l) (PStr ("#" +:+ fg))).
Proof.
  intros Hbg Hfg Hl. unfold gen_image.
  assert (H1 : get_random_hex_color (Some DARKS) (λ _, bg_index d) = Ok ("#" +:+ bg)).
  { apply PaletteFacts.palette_Ok; [discriminate|]. by exists bg. }
  assert (H2 : get_random_hex_color (Some LIGHTS) (λ _, fg_index d) = Ok ("#" +:+ fg)).
  { apply PaletteFacts.palette_Ok; [discriminate|]. by exists fg. }
  rewrite H1, bind_Ok. cbv beta. rewrite H2, bind_Ok. cbv beta.
  rewrite Hl, bind_Ok. reflexivity.
Qed.

Lemma gen_image_in_range (d : Draws) :
  in_range d -> exists img meta, gen_image d = Ok (img, meta).
Proof.
  intros (Hbg & Hfg & Hu).
  destruct (lookup_lt_is_Some_2 _ _ Hbg) as [bg Hbg'].
  destruct (lookup_lt_is_Some_2 _ _ Hfg) as [fg Hfg'].
  destruct (SamplerFacts.get_random_letter_of_triggers LETTERS (letter_random d))
    as (l & Hl & _);
    [exact SamplerFacts.LETTERS_positive | discriminate | exact Hu |].
  do 2 eexists. by apply (gen_image_Ok d bg fg l).
Qed.

(** *** File names *)

Lemma chars_inj (s1 s2 : string) : chars s1 = chars s2 -> s1 = s2.
Proof.
  revert s2; induction s1 as [|c s1 IH]; intros [|c' s2]; simpl; try done.
  intros [= -> H]. f_equal. by apply IH.
Qed.

Lemma append_inv_tail (s1 s2 t : string) : s1 +:+ t = s2 +:+ t -> s1 = s2.
Proof.
  intros H. apply chars_inj. apply (f_equal chars) in H.
  rewrite !PaletteFacts.chars_app in H. by apply app_inv_tail in H.
Qed.

Lemma image_name_inj (i j : nat) : image_name i = image_name j -> i = j.
Proof.
  unfold image_name, str. intros H. apply append_inv_tail in H.
  by apply (inj pretty) in H.
Qed.

Lemma meta_name_inj (i j : nat) : meta_name i = meta_name j -> i = j.
Proof.
  unfold meta_name, str. intros H. apply append_inv_tail in H.
  by apply (inj pretty) in H.
Qed.

Lemma image_name_ne_meta_name (i j : nat) : image_name i <> meta_name j.
Proof.
  unfold image_name, meta_name, EXT. intros H. apply (f_equal chars) in H.
  rewrite !PaletteFacts.chars_app in H. apply (f_equal last) in H.
  change (chars ".jpg") with ([".";"j";"p"] ++ ["g"]) in H.
  change (chars "-meta.json") with (["-";"m";"e";"t";"a";".";"j";"s";"o"] ++ ["n"]) in H.
  rewrite !app_assoc, !last_snoc in H. discriminate.
Qed.

(** Two file names differ: different indices, or an image and a metadata
    file. *)
Ltac distinct_names :=
  let H := fresh in
  intros H;
  first [ apply image_name_inj in H; lia
        | apply meta_name_inj in H; lia
        | by apply image_name_ne_meta_name in H
        | symmetry in H; by apply image_name_ne_meta_name in H ].

(** *** The loop *)

Lemma generate_loop_snoc (rnd : nat -> Draws) (range : list nat) (i : nat) (out : Dir) :
  generate_loop rnd (range ++ [i]) out =
    match generate_loop rnd range out with
    | (out', Ok _) => generate_loop rnd [i] out'
    | (out', Raise e) => (out', Raise e)
    end.
Proof.
  revert out; induction range as [|j range IH]; intros out; simpl.
  - done.
  - destruct (gen_image (rnd j)) as [[img meta]|e]; [apply IH | done].
Qed.

Lemma written_0 (rnd : nat -> Draws) : written rnd 0 ∅.
Proof.
  split; [intros name c H; by rewrite lookup_empty in H|].
  split; [intros i Hi; lia|].
  unfold images, metas. by rewrite !map_filter_empty, map_size_empty.
Qed.

Lemma written_S (rnd : nat -> Draws) (n : nat) (out : Dir) img meta :
  written rnd n out -> gen_image (rnd n) = Ok (img, meta) ->
  written rnd (S n) (save_output (str n) img meta out).
Proof.
  intros (Hdom & Hfiles & Himg & Hmeta) Hgen.
  fold (image_name n) (meta_name n). unfold save_output.
  fold (image_name n) (meta_name n).
  assert (Hi : out !! image_name n = None).
  { destruct (out !! image_name n) as [c|] eqn:Hc; [|done].
    destruct (Hdom _ _ Hc) as (i & Hlt & [[Heq _]|[Heq _]]).
    - apply image_name_inj in Heq. lia.
    - by apply image_name_ne_meta_name in Heq. }
  assert (Hm : out !! meta_name n = None).
  { destruct (out !! meta_name n) as [c|] eqn:Hc; [|done].
    destruct (Hdom _ _ Hc) as (i & Hlt & [[Heq _]|[Heq _]]).
    - symmetry in Heq. by apply image_name_ne_meta_name in Heq.
    - apply meta_name_inj in Heq. lia. }
  assert (Hne : image_name n <> meta_name n) by apply image_name_ne_meta_name.
  split; [|split; [|split]].
  - intros name c. rewrite lookup_insert_Some.
    intros [[<- <-]|[_ Hc]]; [exists n; split; [lia | by right]|].
    apply lookup_insert_Some in Hc as [[<- <-]|[_ Hc]];
      [exists n; split; [lia | by left]|].
    destruct (Hdom _ _ Hc) as (i & Hlt & Hcase). exists i. split; [lia | done].
  - intros i Hlt. destruct (decide (i = n)) as [->|Hin].
    + exists img, meta. split; [done|].
      rewrite lookup_insert_ne, !lookup_insert_eq by done. done.
    + destruct (Hfiles i ltac:(lia)) as (img' & meta' & Hg & H1 & H2).
      exists img', meta'. split; [done|].
      rewrite !lookup_insert_ne by distinct_names. split; assumption.
  - unfold images in *.
    rewrite map_filter_insert_False by (simpl; done).
    rewrite delete_id by (by rewrite lookup_insert_ne).
    rewrite map_filter_insert_True by done.
    rewrite map_size_insert_None; [by rewrite Himg|].
    apply map_lookup_filter_None_2. by left.
  - unfold metas in *.
    rewrite map_filter_insert_True by done.
    rewrite map_size_insert_None.
    + rewrite map_filter_insert_False by (simpl; done).
      rewrite delete_id by done. by rewrite Hmeta.
    + apply map_lookup_filter_None_2. left. by rewrite lookup_insert_ne.
Qed.

Lemma generate_images_written (total : nat) (rnd : nat -> Draws) :
  (forall i, i < total -> in_range (rnd i)) ->
  exists out, generate_images_of total rnd ∅ = (out, Ok tt) /\ written rnd total out.
Proof.
  unfold generate_images_of. induction total as [|n IH]; intros Hrnd.
  - exists ∅. split; [done | apply written_0].
  - destruct IH as (out & Hrun & Hinv); [intros i Hi; apply Hrnd; lia|].
    destruct (gen_image_in_range (rnd n)) as (img & meta & Hgen); [apply Hrnd; lia|].
    exists (save_output (str n) img meta out). split; [|by apply written_S].
    rewrite seq_S, generate_loop_snoc, Hrun. simpl. by rewrite Hgen.
Qed.

(** ** Claims on the batch *)

(** C8.  With draws that respect the [random] module, a run for [total]
    items into an empty output directory ends normally and leaves exactly
    [total] image files and [total] metadata files: for each index
    [i < total] the image [str(i) + EXT] and the metadata file
    [str(i) + "-meta.json"], holding the image and the trait list of the
    item generated at iteration [i]; nothing else; and distinct indices
    give distinct names. *)
Theorem generate_images_files (total : nat) (rnd : nat -> Draws) :
  (forall i, i < total -> in_range (rnd i)) ->
  exists out, generate_images_of total rnd ∅ = (out, Ok tt) /\
    size (images out) = total /\ size (metas out) = total /\
    (forall i, i < total ->
       exists img meta, gen_image (rnd i) = Ok (img, meta) /\
         out !! (str i +:+ EXT) = Some (ImageFile img) /\
         out !! (str i +:+ "-meta.json") = Some (JsonFile (as_os_metadata meta))) /\
    (forall name, is_Some (out !! name) ->
       exists i, i < total /\
         (name = str i +:+ EXT \/ name = str i +:+ "-meta.json")) /\
    (forall i j, i <> j ->
       str i +:+ EXT <> str j +:+ EXT /\
       str i +:+ "-meta.json" <> str j +:+ "-meta.json").
Proof.
  intros Hrnd.
  destruct (generate_images_written total rnd Hrnd)
    as (out & Hrun & Hdom & Hfiles & Himg & Hmeta).
  exists out. split; [done|]. split; [done|]. split; [done|].
  split; [|split].
  - intros i Hi. exact (Hfiles i Hi).
  - intros name [c Hc]. destruct (Hdom name c Hc) as (i & Hi & [[-> _]|[-> _]]);
      exists i; (split; [done|]); [by left | by right].
  - intros i j Hij. split; intros Heq; apply Hij.
    + by apply image_name_inj.
    + by apply meta_name_inj.
Qed.

Lemma generate_images_files_witness :
  (forall i, i < 5 -> in_range (mkDraws i i 0.5%Q)) /\
  exists out,
    generate_images_of 5 (λ i, mkDraws i i 0.5%Q) ∅ = (out, Ok tt) /\
    size (images out) = 5 /\ size (metas out) = 5.
Proof.
  assert (H : forall i, i < 5 -> in_range (mkDraws i i 0.5%Q)).
  { intros i Hi. unfold in_range.
    change (length DARKS) with 15. change (length LIGHTS) with 15. simpl.
    split; [lia|]. split; [lia|]. split; lra. }
  split; [exact H|].
  destruct (generate_images_files 5 (λ i, mkDraws i i 0.5%Q) H)
    as (out & Hrun & Himg & Hmeta & _).
  exists out. split; [exact Hrun|]. split; [exact Himg | exact Hmeta].
Defined.

(** ** Claims on the metadata of an item *)

(** C5, as the code has it.  When the elements drawn from the palettes are
    [bg] and [fg] and the letter is [l], the metadata written for the item
    is the array of the three traits [bg_color], [letter], [letter_color]
    in this order, the two colour values being ["#" + bg] and ["#" + fg]. *)
Theorem metadata_json (d : Draws) (bg fg l name : string) (out : Dir) :
  DARKS !! bg_index d = Some bg -> LIGHTS !! fg_index d = Some fg ->
  get_random_letter (letter_random d) = Ok (Some l) ->
  exists img meta, gen_image d = Ok (img, meta) /\
    save_output name img meta out !! (name +:+ "-meta.json") =
      Some (JsonFile [trait "bg_color" (PStr ("#" +:+ bg));
                      trait "letter" (PStr l);
                      trait "letter_color" (PStr ("#" +:+ fg))]).
Proof.
  intros Hbg Hfg Hl. do 2 eexists. split; [by apply (gen_image_Ok d bg fg l)|].
  unfold save_output. by rewrite lookup_insert_eq.
Qed.

Lemma metadata_json_witness :
  DARKS !! 0 = Some "171212" /\ LIGHTS !! 0 = Some "f58eb9" /\
  get_random_letter 0.15 = Ok (Some "e") /\
  exists img meta, gen_image (mkDraws 0 0 0.15) = Ok (img, meta) /\
    save_output "0" img meta ∅ !! "0-meta.json" =
      Some (JsonFile [trait "bg_color" (PStr "#171212");
                      trait "letter" (PStr "e");
                      trait "letter_color" (PStr "#f58eb9")]).
Proof.
  assert (Hbg : DARKS !! 0 = Some "171212") by reflexivity.
  assert (Hfg : LIGHTS !! 0 = Some "f58eb9") by reflexivity.
  assert (Hl : get_random_letter 0.15 = Ok (Some "e")) by (vm_compute; reflexivity).
  split; [exact Hbg|]. split; [exact Hfg|]. split; [exact Hl|].
  exact (metadata_json (mkDraws 0 0 0.15) "171212" "f58eb9" "e" "0" ∅ Hbg Hfg Hl).
Defined.

(** C5, as the spec has it, fails: for the item with palette colour
    ["171212"], letter ["e"] and palette colour ["f58eb9"], the array
    written differs from the one with the bare colour codes. *)
Lemma metadata_json_keeps_hash :
  DARKS !! 0 = Some "171212" /\ LIGHTS !! 0 = Some "f58eb9" /\
  get_random_letter 0.15 = Ok (Some "e") /\
  exists img meta, gen_image (mkDraws 0 0 0.15) = Ok (img, meta) /\
    save_output "0" img meta ∅ !! "0-meta.json" =
      Some (JsonFile (as_os_metadata meta)) /\
    as_os_metadata meta <>
      [trait "bg_color" (PStr "171212"); trait "letter" (PStr "e");
       trait "letter_color" (PStr "f58eb9")].
Proof.
  split; [reflexivity|]. split; [reflexivity|].
  assert (Hl : get_random_letter 0.15 = Ok (Some "e")) by (vm_compute; reflexivity).
  split; [exact Hl|].
  do 2 eexists. split; [by apply (gen_image_Ok _ "171212" "f58eb9" "e")|].
  split; [unfold save_output; by rewrite lookup_insert_eq|].
  discriminate.
Qed.

End BatchFacts.

(** * Further properties of the samplers *)

Module SamplerMore.
Import Sampler SamplerFacts.
Local Open Scope Q_scope.

(** X1.  Whatever the table and the draw, a letter that
    [get_random_letter] returns is a key of the table. *)
Theorem get_random_letter_returns_key (items : WeightTable) (u : Q) (k : string) :
  get_random_letter_of items u = Ok (Some k) -> k ∈ keys items.
Proof.
  unfold get_random_letter_of. intros [= H]. exact (loop_key _ _ _ H).
Qed.

Lemma get_random_letter_returns_key_witness :
  get_random_letter 0.15 = Ok (Some "e"%string) /\ "e"%string ∈ keys LETTERS.
Proof.
  assert (H : get_random_letter 0.15 = Ok (Some "e"%string))
    by (vm_compute; reflexivity).
  split; [exact H|].
  exact (get_random_letter_returns_key LETTERS 0.15 "e" H).
Defined.

End SamplerMore.

(** * Further properties of the sampler as Python computes it *)

Module Binary64More.
Import Binary64 Binary64Facts.
Local Open Scope float_scope.
#[local] Set Warnings "-inexact-float".

(** Rounding a non-negative significand gives no negative float. *)
Lemma binary_round_aux_sign (m e : Z) (l : location) :
  SFltb (binary_round_aux prec emax false m e l) (S754_zero false) = false.
Proof.
  unfold binary_round_aux.
  destruct (shr_fexp prec emax m e l) as [mrs' e'].
  destruct (shr_fexp prec emax _ e' loc_Exact) as [mrs'' e''].
  destruct (shr_m mrs'') as [|p|p]; [reflexivity| |reflexivity].
  destruct (e'' <=? emax - prec)%Z; reflexivity.
Qed.

(** [x - w] is not negative when [x] is not and [w <= 0], rounding,
    infinities and NaN included. *)
Lemma sub_not_negative (x w : float) :
  not_negative x -> (w <=? 0) = true -> not_negative (x - w).
Proof.
  unfold not_negative. rewrite !ltb_spec, leb_spec, sub_spec.
  change (Prim2SF 0) with (S754_zero false).
  destruct (Prim2SF x) as [sx|sx| |sx mx ex], (Prim2SF w) as [sy|sy| |sy my ey];
    try destruct sx; try destruct sy; try discriminate; try reflexivity.
  intros _ _. unfold SF64sub, SFsub, binary_normalize, cond_Zopp.
  cbv zeta.
  change (Z.pos ?a - - Z.pos ?b)%Z with (Z.pos (a + b)).
  unfold binary_round.
  destruct (shl_align _ _ _) as [mz ez]. apply binary_round_aux_sign.
Qed.

Lemma loop_skips (items : WeightTable) (k : string) (w r : float) :
  NoDup (keys items) -> (k, w) ∈ items -> (w <=? 0) = true -> not_negative r ->
  loop items r <> Some k.
Proof.
  revert r; induction items as [|[k' v] rest IH]; simpl; intros r Hnd Hin Hw Hr.
  - inversion Hin.
  - apply NoDup_cons in Hnd as [Hk' Hnd].
    destruct (r - v <? 0) eqn:E.
    + intros [= ->]. apply elem_of_cons in Hin as [[= ->]|Hin].
      * pose proof (sub_not_negative r v Hr Hw) as H. unfold not_negative in H.
        rewrite H in E. discriminate.
      * apply Hk'. exact (list_elem_of_fmap_2 fst _ _ Hin).
    + apply elem_of_cons in Hin as [[= -> ->]|Hin].
      * intros H. apply Hk'. exact (loop64_key _ _ _ H).
      * by apply IH.
Qed.

(** X2.  An entry whose weight is not positive is never selected from a
    draw that is not negative: for a table of distinct keys the loop
    started at a remainder that is not negative does not return its key,
    and neither does [get_random_letter] when the scaled draw
    [random() * sum] is not negative.  This is the sampler in binary64. *)
Theorem get_random_letter_skips_nonpositive (items : WeightTable) (k : string)
    (w : float) :
  NoDup (keys items) -> (k, w) ∈ items -> (w <=? 0) = true ->
  (forall r, not_negative r -> loop items r <> Some k) /\
  (forall u, not_negative (u * sum (values items)) ->
     get_random_letter_of items u <> Ok (Some k)).
Proof.
  intros Hnd Hin Hw. split.
  - intros r Hr. by apply (loop_skips items k w r).
  - intros u Hu [= H]. revert H. by apply (loop_skips items k w).
Qed.

Lemma get_random_letter_skips_nonpositive_witness :
  let items := [("a", 1); ("b", 0); ("c", 2)]%string in
  let u := 0.3333333333333333 in
  NoDup (keys items) /\ ("b"%string, 0) ∈ items /\ (0 <=? 0) = true /\
  not_negative (u * sum (values items)) /\
  get_random_letter_of items u <> Ok (Some "b"%string).
Proof.
  cbv zeta.
  assert (Hnd : NoDup (keys [("a", 1); ("b", 0); ("c", 2)]%string)).
  { apply (bool_decide_unpack _). vm_compute. exact I. }
  assert (Hin : ("b"%string, 0) ∈ [("a", 1); ("b", 0); ("c", 2)]%string).
  { apply list_elem_of_further, list_elem_of_here. }
  assert (Hw : (0 <=? 0) = true) by reflexivity.
  assert (Hu : not_negative
    (0.3333333333333333 * sum (values [("a", 1); ("b", 0); ("c", 2)]%string)))
    by reflexivity.
  split; [exact Hnd|]. split; [exact Hin|]. split; [exact Hw|]. split; [exact Hu|].
  exact (proj2 (get_random_letter_skips_nonpositive _ "b" 0 Hnd Hin Hw)
    0.3333333333333333 Hu).
Defined.

(** X3.  In binary64 the order of the table matters: the table
    [{a: 0.06, b: 0.75}] and the same entries in the order
    [{b: 0.75, a: 0.06}] have the same total weight, and for the
    [random()] value [1 - 2^-53] the first yields no letter and the second
    yields [a]. *)
Theorem get_random_letter_order_matters :
  exists (items items' : WeightTable) (u : float),
    items ≡ₚ items' /\ positive items /\ unit_interval u /\
    sum (values items') = sum (values items) /\
    get_random_letter_of items u = Ok None /\
    get_random_letter_of items' u = Ok (Some "a"%string).
Proof.
  exists [("a", 0.06); ("b", 0.75)]%string, [("b", 0.75); ("a", 0.06)]%string,
    random_max.
  split; [apply Permutation_swap|].
  split; [repeat constructor|].
  split; [split; reflexivity|].
  repeat split; vm_compute; reflexivity.
Qed.

End Binary64More.

Module PaletteMore.
Import Palette PaletteFacts.

Lemma expand_empty_iff (t : Weights) :
  expand t = [] <-> Forall (λ kv, (kv.2 <= 0)%Z) t.
Proof.
  induction t as [|[k v] t IH].
  - split; [constructor | done].
  - rewrite expand_cons, Forall_cons, <- IH. simpl. split.
    + intros H. apply app_eq_nil in H as [Hr Ht]. split; [|done].
      destruct (Z.to_nat v) eqn:Hv; [lia | discriminate].
    + intros [Hv ->]. replace (Z.to_nat v) with 0 by lia. done.
Qed.

(** X4.  A colour code is in the expanded palette exactly when the table
    gives it a positive weight: an entry with weight 0 or less leaves no
    trace in the palette. *)
Theorem expand_membership (t : Weights) (k : string) :
  k ∈ expand t <-> exists w, (k, w) ∈ t /\ (0 < w)%Z.
Proof.
  induction t as [|[k' v] t IH].
  - rewrite expand_nil. split; [intros H; inversion H|].
    intros (w & H & _). inversion H.
  - rewrite expand_cons, elem_of_app, elem_of_replicate, IH. split.
    + intros [[-> Hv]|(w & Hin & Hw)].
      * exists v. split; [left | lia].
      * exists w. split; [by right | done].
    + intros (w & Hin & Hw). apply elem_of_cons in Hin as [[= -> ->]|Hin].
      * left. split; [done | lia].
      * right. by exists w.
Qed.

(** X5.  A table without any positive weight expands to the empty
    palette, and the sampler then silently takes the random-hex path, as
    if no palette had been given. *)
Theorem get_random_hex_color_no_positive_weight (t : Weights) (rnd : nat -> nat) :
  Forall (λ kv, (kv.2 <= 0)%Z) t ->
  expand t = [] /\
  get_random_hex_color (Some (expand t)) rnd = get_random_hex_color None rnd.
Proof.
  intros Ht. apply expand_empty_iff in Ht. rewrite Ht. done.
Qed.

Lemma get_random_hex_color_no_positive_weight_witness :
  Forall (λ kv, (kv.2 <= 0)%Z) [("171212", 0%Z); ("002500", (-2)%Z)] /\
  get_random_hex_color (Some (expand [("171212", 0%Z); ("002500", (-2)%Z)])) (λ n, n)
  = get_random_hex_color None (λ n, n).
Proof.
  assert (H : Forall (λ kv, (kv.2 <= 0)%Z) [("171212", 0%Z); ("002500", (-2)%Z)]).
  { repeat constructor; simpl; lia. }
  split; [exact H|].
  exact (proj2 (get_random_hex_color_no_positive_weight _ (λ n, n) H)).
Defined.

Lemma fallback_alphabet_NoDup : NoDup (chars "abcdef01234567").
Proof. apply (bool_decide_unpack _). vm_compute. exact I. Qed.

Lemma fallback_in_range (rnd : nat -> nat) :
  (forall n, n < 6 -> rnd n < 14) ->
  exists cs, mapM (λ n, choice (chars "abcdef01234567") (rnd n)) (seq 0 6) = Ok cs /\
    get_random_hex_color None rnd = Ok ("#" +:+ String.concat "" cs) /\
    chars (String.concat "" cs) = cs.
Proof.
  intros Hrnd.
  destruct (mapM_choice_in_range (chars "abcdef01234567") rnd (seq 0 6)) as [cs Hcs].
  { apply Forall_forall. intros n Hn. apply elem_of_seq in Hn.
    change (length (chars "abcdef01234567")) with 14. apply Hrnd. lia. }
  exists cs. split; [done|].
  assert (Hres : get_random_hex_color None rnd = Ok ("#" +:+ String.concat "" cs)).
  { unfold get_random_hex_color. rewrite Hcs. reflexivity. }
  split; [done|].
  apply chars_concat. apply mapM_choice_Ok in Hcs.
  clear Hres. induction Hcs as [|n c l cs' Hc _ IH]; [constructor|].
  constructor; [|done].
  apply list_elem_of_lookup_2 in Hc. exact (elem_of_chars_single _ _ Hc).
Qed.

(** X6.  On the random-hex path the six draws determine the result and
    the result determines the six draws: two runs whose draws are below 14
    return the same string only if they drew the same six indices.  So
    the [14^6] index sequences give [14^6] different strings. *)
Theorem get_random_hex_color_fallback_injective (rnd rnd' : nat -> nat) :
  (forall n, n < 6 -> rnd n < 14) -> (forall n, n < 6 -> rnd' n < 14) ->
  get_random_hex_color None rnd = get_random_hex_color None rnd' ->
  forall n, n < 6 -> rnd n = rnd' n.
Proof.
  intros Hrnd Hrnd' Heq n Hn.
  destruct (fallback_in_range rnd Hrnd) as (cs & Hcs & Hres & Hchars).
  destruct (fallback_in_range rnd' Hrnd') as (cs' & Hcs' & Hres' & Hchars').
  rewrite Hres, Hres' in Heq. injection Heq as Heq.
  change (String.concat "" cs = String.concat "" cs') in Heq.
  assert (Hsame : cs = cs') by (by rewrite <- Hchars, <- Hchars', Heq).
  subst cs'.
  apply mapM_choice_Ok in Hcs, Hcs'.
  assert (Hin : seq 0 6 !! n = Some n) by (apply lookup_seq; lia).
  destruct (Forall2_lookup_l _ _ _ _ _ Hcs Hin) as (c & Hc & H1).
  destruct (Forall2_lookup_l _ _ _ _ _ Hcs' Hin) as (c' & Hc' & H2).
  rewrite Hc in Hc'. injection Hc' as <-.
  exact (NoDup_lookup _ _ _ _ fallback_alphabet_NoDup H1 H2).
Qed.

Lemma get_random_hex_color_fallback_injective_witness :
  (forall n, n < 6 -> (λ n, n) n < 14) /\
  (forall n, n < 6 -> (λ n, n mod 6) n < 14) /\
  get_random_hex_color None (λ n, n) = get_random_hex_color None (λ n, n mod 6) /\
  forall n, n < 6 -> (λ n, n) n = (λ n, n mod 6) n.
Proof.
  assert (H1 : forall n, n < 6 -> (λ n, n) n < 14) by (intros n Hn; simpl; lia).
  assert (H2 : forall n, n < 6 -> (λ n, n mod 6) n < 14).
  { intros n Hn. simpl. pose proof (Nat.mod_upper_bound n 6). lia. }
  assert (H3 : get_random_hex_color None (λ n, n)
               = get_random_hex_color None (λ n, n mod 6)) by reflexivity.
  split; [exact H1|]. split; [exact H2|]. split; [exact H3|].
  exact (get_random_hex_color_fallback_injective (λ n, n) (λ n, n mod 6) H1 H2 H3).
Defined.

End PaletteMore.

Module MetaMore.
Import Meta.

(** X17.  The trait list keeps everything: it always has three entries,
    and two metadata records with the same trait list are the same
    record. *)
Theorem as_os_metadata_injective (m1 m2 : MetaData) :
  length (as_os_metadata m1) = 3 /\
  (as_os_metadata m1 = as_os_metadata m2 -> m1 = m2).
Proof.
  destruct m1, m2. unfold as_os_metadata, __dict__. simpl.
  split; [reflexivity|]. intros [= -> -> ->]. reflexivity.
Qed.

Lemma as_os_metadata_injective_witness :
  as_os_metadata (mkMetaData (PStr "#171212") (PStr "e") (PStr "#f58eb9"))
  = as_os_metadata (mkMetaData (PStr "#171212") (PStr "e") (PStr "#f58eb9")) /\
  mkMetaData (PStr "#171212") (PStr "e") (PStr "#f58eb9")
  = mkMetaData (PStr "#171212") (PStr "e") (PStr "#f58eb9").
Proof.
  split; [reflexivity|].
  apply (proj2 (as_os_metadata_injective _ _)). reflexivity.
Defined.

End MetaMore.

(** * Further properties of the items and of the batch *)

Module BatchMore.
Import Sampler Palette Meta Batch BatchFacts.

Lemma bind_Raise {A B} (e : exn) (f : A -> result B) : Raise e ≫= f = Raise e.
Proof. reflexivity. Qed.

(** What [gen_image] returns, when it returns. *)
Lemma gen_image_inv (d : Draws) (img : Image) (meta : MetaData) :
  gen_image d = Ok (img, meta) ->
  exists bg fg letter,
    DARKS !! bg_index d = Some bg /\ LIGHTS !! fg_index d = Some fg /\
    get_random_letter (letter_random d) = Ok letter /\
    img = mkImage SIZE ("#" +:+ bg) (pyval_of letter) ("#" +:+ fg) FONT_SIZE /\
    meta = mkMetaData (PStr ("#" +:+ bg)) (pyval_of letter) (PStr ("#" +:+ fg)).
Proof.
  unfold gen_image.
  destruct (get_random_hex_color (Some DARKS) (λ _, bg_index d)) as [c1|e] eqn:H1;
    [|rewrite bind_Raise; discriminate].
  rewrite bind_Ok. cbv beta.
  destruct (get_random_hex_color (Some LIGHTS) (λ _, fg_index d)) as [c2|e] eqn:H2;
    [|rewrite bind_Raise; discriminate].
  rewrite bind_Ok. cbv beta.
  destruct (get_random_letter (letter_random d)) as [l|e] eqn:H3;
    [|rewrite bind_Raise; discriminate].
  rewrite bind_Ok. intros [= <- <-].
  apply PaletteFacts.palette_Ok in H1 as (bg & Hbg & ->); [|discriminate].
  apply PaletteFacts.palette_Ok in H2 as (fg & Hfg & ->); [|discriminate].
  by exists bg, fg, l.
Qed.

Lemma palettes_disjoint (c : string) : c ∈ DARKS -> c ∈ LIGHTS -> False.
Proof.
  intros H1 H2. revert c H1 H2.
  apply (proj1 (Forall_forall (λ c, c ∉ LIGHTS) DARKS)).
  apply (bool_decide_unpack _). vm_compute. exact I.
Qed.



(** X8.  Whatever the draws, when [gen_image] returns, the image and the
    metadata describe the same item (the background of the image is the
    [bg_color], its text the [letter], its fill the [letter_color]; size
    and font size are the configured ones), and the background colour
    differs from the letter colour. *)
Theorem gen_image_consistent (d : Draws) (img : Image) (meta : MetaData) :
  gen_image d = Ok (img, meta) ->
  bg_color meta = PStr (im_color img) /\
  letter meta = im_text img /\
  letter_color meta = PStr (im_fill img) /\
  im_size img = SIZE /\ im_font_size img = FONT_SIZE /\
  im_color img <> im_fill img.
Proof.
  intros H. apply gen_image_inv in H as (bg & fg & l & Hbg & Hfg & _ & -> & ->).
  simpl. repeat (split; [reflexivity|]).
  intros [= Heq]. change (bg = fg) in Heq. subst fg.
  apply (palettes_disjoint bg); by eapply list_elem_of_lookup_2.
Qed.

Lemma gen_image_consistent_witness :
  exists img meta,
    gen_image (mkDraws 7 11 0.5%Q) = Ok (img, meta) /\
    bg_color meta = PStr (im_color img) /\ im_color img <> im_fill img.
Proof.
  assert (H : gen_image (mkDraws 7 11 0.5%Q)
    = Ok (mkImage SIZE "#002500" (PStr "s") "#f8f4a6" FONT_SIZE,
          mkMetaData (PStr "#002500") (PStr "s") (PStr "#f8f4a6"))).
  { apply (gen_image_Ok _ "002500" "f8f4a6" "s"); [reflexivity..|].
    vm_compute. reflexivity. }
  do 2 eexists. split; [exact H|].
  destruct (gen_image_consistent _ _ _ H) as (H1 & _ & _ & _ & _ & H2).
  split; [exact H1 | exact H2].
Defined.

(** *** Saving *)

Lemma jpg_ne_meta (a b : string) : a +:+ EXT <> b +:+ "-meta.json".
Proof.
  unfold EXT. intros H. apply (f_equal chars) in H.
  rewrite !PaletteFacts.chars_app in H. apply (f_equal last) in H.
  change (chars ".jpg") with ([".";"j";"p"] ++ ["g"]) in H.
  change (chars "-meta.json") with (["-";"m";"e";"t";"a";".";"j";"s";"o"] ++ ["n"]) in H.
  rewrite !app_assoc, !last_snoc in H. discriminate.
Qed.

Lemma append_ne (a b t : string) : a <> b -> a +:+ t <> b +:+ t.
Proof. intros Hab H. apply Hab. by apply append_inv_tail in H. Qed.

(** X9.  For the name [str(i)] that the batch loop passes,
    [save_output] writes two files and touches nothing else: after it the
    image is found under [str(i) + EXT] (the metadata write does not
    replace it), the trait list under [str(i) + "-meta.json"], and every
    other name holds what it held before. *)
Theorem save_output_lookup (i : nat) (image : Image) (meta : MetaData)
    (out : Dir) :
  save_output (str i) image meta out !! image_name i
    = Some (ImageFile image) /\
  save_output (str i) image meta out !! meta_name i
    = Some (JsonFile (as_os_metadata meta)) /\
  (forall other,
     other <> image_name i -> other <> meta_name i ->
     save_output (str i) image meta out !! other = out !! other).
Proof.
  unfold save_output, image_name, meta_name. split; [|split].
  - rewrite lookup_insert_ne; [by rewrite lookup_insert_eq|].
    intros H. symmetry in H. by apply jpg_ne_meta in H.
  - by rewrite lookup_insert_eq.
  - intros other H1 H2. by rewrite !lookup_insert_ne.
Qed.

Lemma save_output_lookup_witness :
  let image := mkImage SIZE "#171212" (PStr "e") "#f58eb9" FONT_SIZE in
  let meta := mkMetaData (PStr "#171212") (PStr "e") (PStr "#f58eb9") in
  "0.jpg" <> image_name 7 /\ "0.jpg" <> meta_name 7 /\
  save_output (str 7) image meta ∅ !! "0.jpg" = (∅ : Dir) !! "0.jpg".
Proof.
  intros image meta.
  assert (H1 : "0.jpg" <> image_name 7) by (vm_compute; discriminate).
  assert (H2 : "0.jpg" <> meta_name 7) by (vm_compute; discriminate).
  split; [exact H1|]. split; [exact H2|].
  exact (proj2 (proj2 (save_output_lookup 7 image meta ∅)) "0.jpg" H1 H2).
Defined.

(** X10.  For the names [str(i)] that the batch loop passes, saves
    compose as writes to separate files: saving the items of two
    different indices gives the same directory in either order, and
    saving again under an index replaces both files of the earlier
    save. *)
Theorem save_output_compose (i j : nat) (i1 i2 : Image) (m1 m2 : MetaData)
    (out : Dir) :
  (i <> j ->
     save_output (str i) i1 m1 (save_output (str j) i2 m2 out)
     = save_output (str j) i2 m2 (save_output (str i) i1 m1 out)) /\
  save_output (str i) i1 m1 (save_output (str i) i2 m2 out)
  = save_output (str i) i1 m1 out.
Proof.
  unfold save_output. split.
  - intros Hij.
    assert (Hab : str i <> str j) by (intros H; by apply (inj pretty) in H).
    assert (H1 : str i +:+ EXT <> str j +:+ "-meta.json") by apply jpg_ne_meta.
    assert (H2 : str j +:+ EXT <> str i +:+ "-meta.json") by apply jpg_ne_meta.
    assert (H3 : str i +:+ EXT <> str j +:+ EXT) by (by apply append_ne).
    assert (H4 : str i +:+ "-meta.json" <> str j +:+ "-meta.json")
      by (by apply append_ne).
    rewrite (insert_insert_ne _ (str i +:+ EXT) (str j +:+ "-meta.json")) by done.
    rewrite (insert_insert_ne _ (str i +:+ EXT) (str j +:+ EXT)) by done.
    rewrite (insert_insert_ne _ (str i +:+ "-meta.json") (str j +:+ "-meta.json"))
      by done.
    rewrite (insert_insert_ne _ (str i +:+ "-meta.json") (str j +:+ EXT)) by done.
    done.
  - assert (H1 : str i +:+ EXT <> str i +:+ "-meta.json") by apply jpg_ne_meta.
    rewrite (insert_insert_ne _ (str i +:+ EXT) (str i +:+ "-meta.json")) by done.
    by rewrite !insert_insert_eq.
Qed.

Lemma save_output_compose_witness :
  let i1 := mkImage SIZE "#171212" (PStr "e") "#f58eb9" FONT_SIZE in
  let m1 := mkMetaData (PStr "#171212") (PStr "e") (PStr "#f58eb9") in
  let i2 := mkImage SIZE "#002500" (PStr "s") "#f8f4a6" FONT_SIZE in
  let m2 := mkMetaData (PStr "#002500") (PStr "s") (PStr "#f8f4a6") in
  0 <> 1 /\
  save_output (str 0) i1 m1 (save_output (str 1) i2 m2 ∅)
  = save_output (str 1) i2 m2 (save_output (str 0) i1 m1 ∅).
Proof.
  intros i1 m1 i2 m2.
  assert (H : 0 <> 1) by lia.
  split; [exact H|].
  exact (proj1 (save_output_compose 0 1 i1 i2 m1 m2 ∅) H).
Defined.

(** *** Runs *)

Lemma save_output_union (name : string) img meta (m out0 : Dir) :
  save_output name img meta (m ∪ out0) = save_output name img meta m ∪ out0.
Proof. unfold save_output. by rewrite !insert_union_l. Qed.

Lemma generate_loop_union (rnd : nat -> Draws) (range : list nat) (m out0 : Dir) :
  generate_loop rnd range (m ∪ out0)
  = ((generate_loop rnd range m).1 ∪ out0, (generate_loop rnd range m).2).
Proof.
  revert m; induction range as [|i range IH]; intros m; simpl; [done|].
  destruct (gen_image (rnd i)) as [[img meta]|e]; [|done].
  by rewrite save_output_union, IH.
Qed.

(** X11.  [generate_images] does not clear the directory: a run on a
    directory that already holds entries ends as the run on an empty one
    does, and leaves the files of that run together with the earlier
    entries under other names; an earlier entry under the name of a
    written file is replaced. *)
Theorem generate_images_keeps_other_files (total : nat) (rnd : nat -> Draws)
    (out0 : Dir) :
  generate_images_of total rnd out0
  = ((generate_images_of total rnd ∅).1 ∪ out0,
     (generate_images_of total rnd ∅).2).
Proof.
  unfold generate_images_of.
  rewrite <- (generate_loop_union rnd (seq 0 total) ∅ out0).
  by rewrite (left_id_L ∅ (∪)).
Qed.

End BatchMore.

(** * Properties of the letter distribution check *)

Module DistributionFacts.
Import Sampler Distribution.

Lemma sum_list_Permutation (l l' : list nat) : l ≡ₚ l' -> sum_list l = sum_list l'.
Proof.
  induction 1 as [|x l l' _ IH|x y l|l l' l'' _ IH1 _ IH2]; simpl; lia.
Qed.

Lemma counted_insert (counts : Counts) (k : option string) (n : nat) :
  counts !! k = None -> counted (<[k:=n]> counts) = n + counted counts.
Proof.
  intros Hk. unfold counted.
  rewrite (sum_list_Permutation _ (((k, n) :: map_to_list counts).*2)); [done|].
  apply fmap_Permutation. by apply map_to_list_insert.
Qed.

Lemma tally_lookup (letter k : option string) (counts : Counts) :
  tally letter counts !! k =
    if decide (k = letter) then Some (default 0 (counts !! letter) + 1)
    else counts !! k.
Proof.
  unfold tally. destruct (counts !! letter) as [n|] eqn:Hl; simpl;
    (destruct (decide (k = letter)) as [->|Hne];
     [by rewrite lookup_insert_eq | by rewrite lookup_insert_ne]).
Qed.

Lemma counted_tally (letter : option string) (counts : Counts) :
  counted (tally letter counts) = S (counted counts).
Proof.
  unfold tally. destruct (counts !! letter) as [n|] eqn:Hl.
  - rewrite <- (insert_delete_id counts letter n Hl) at 2.
    rewrite <- (insert_delete_eq counts).
    rewrite !counted_insert by apply lookup_delete_eq. lia.
  - by rewrite counted_insert.
Qed.

Lemma occurrences_cons letters letter (u : Q) (draws : list Q) :
  occurrences letters letter (u :: draws) =
    (if decide (get_random_letter_of letters u = Ok letter) then 1 else 0)
    + occurrences letters letter draws.
Proof.
  unfold occurrences. rewrite filter_cons. by destruct (decide _).
Qed.

Lemma count_loop_spec (letters : WeightTable) (draws : list Q) (counts : Counts) :
  exists counts', count_loop letters draws counts = Ok counts' /\
    counted counts' = counted counts + length draws /\
    forall k, counts' !! k =
      match occurrences letters k draws with
      | 0 => counts !! k
      | S n => Some (default 0 (counts !! k) + S n)
      end.
Proof.
  revert counts; induction draws as [|u draws IH]; intros counts.
  - exists counts. split; [done|]. split; [simpl; lia | done].
  - change (count_loop letters (u :: draws) counts)
      with (count_loop letters draws
              (tally (loop letters (u * sum (values letters))%Q) counts)).
    destruct (IH (tally (loop letters (u * sum (values letters))%Q) counts))
      as (counts' & Hrun & Hsum & Hk).
    exists counts'. split; [done|]. split.
    { rewrite Hsum, counted_tally. simpl. lia. }
    intros k. rewrite Hk, occurrences_cons, tally_lookup.
    unfold get_random_letter_of at 2.
    destruct (decide (k = loop letters (u * sum (values letters))%Q)) as [->|Hne].
    + rewrite decide_True by done.
      destruct (occurrences letters _ draws) as [|n]; simpl; [done|].
      f_equal. lia.
    + rewrite decide_False by (intros [= H]; by apply Hne). done.
Qed.

(** X13.  Every draw is counted once: the counting loop ends normally
    and its counters add up to the number of draws, a [None] returned by
    the sampler being counted like a letter; the result of
    [check_letter_distribution] is these counters divided by [total]. *)
Theorem check_letter_distribution_counts (letters : WeightTable) (total : nat)
    (rnd : nat -> Q) :
  exists counts,
    count_loop letters (rnd <$> seq 0 total) ∅ = Ok counts /\
    counted counts = total /\
    check_letter_distribution_of letters total rnd = Ok (frequency total <$> counts).
Proof.
  destruct (count_loop_spec letters (rnd <$> seq 0 total) ∅)
    as (counts & Hrun & Hsum & _).
  exists counts. split; [done|]. split.
  - rewrite Hsum, length_fmap, length_seq. unfold counted.
    by rewrite map_to_list_empty.
  - unfold check_letter_distribution_of. by rewrite Hrun.
Qed.

(** X14.  The frequency reported for a key is the number of draws that
    returned it, divided by [total]; a key that no draw returned is
    absent from the result, not reported with frequency 0. *)
Theorem check_letter_distribution_frequencies (letters : WeightTable) (total : nat)
    (rnd : nat -> Q) :
  exists freq, check_letter_distribution_of letters total rnd = Ok freq /\
    forall k, freq !! k =
      match occurrences letters k (rnd <$> seq 0 total) with
      | 0 => None
      | S n => Some (frequency total (S n))
      end.
Proof.
  destruct (count_loop_spec letters (rnd <$> seq 0 total) ∅)
    as (counts & Hrun & _ & Hk).
  exists (frequency total <$> counts). split.
  - unfold check_letter_distribution_of. by rewrite Hrun.
  - intros k. rewrite lookup_fmap, Hk, lookup_empty.
    by destruct (occurrences letters k _).
Qed.

Lemma occurrences_pos (letters : WeightTable) letter (draws : list Q) :
  0 < occurrences letters letter draws ->
  exists u, u ∈ draws /\ get_random_letter_of letters u = Ok letter.
Proof.
  unfold occurrences. intros H.
  destruct (filter _ draws) as [|u l] eqn:Hf; [simpl in H; lia|].
  assert (Hu : u ∈ filter (λ u, get_random_letter_of letters u = Ok letter) draws)
    by (rewrite Hf; left).
  apply list_elem_of_filter in Hu as [Hret Hin]. by exists u.
Qed.

Lemma occurrences_found (letters : WeightTable) letter (draws : list Q) (u : Q) :
  u ∈ draws -> get_random_letter_of letters u = Ok letter ->
  0 < occurrences letters letter draws.
Proof.
  unfold occurrences. intros Hin Hret.
  assert (Hu : u ∈ filter (λ u, get_random_letter_of letters u = Ok letter) draws)
    by (by apply list_elem_of_filter).
  destruct (filter _ draws) as [|u' l]; [inversion Hu | simpl; lia].
Qed.

(** X15.  Whatever the table and the draws, the keys of the reported
    distribution are what the sampler returned: a letter among them is a
    key of the table, and [None] is among them exactly when one of the
    draws ended the loop without a selection. *)
Theorem check_letter_distribution_keys (letters : WeightTable) (total : nat)
    (rnd : nat -> Q) :
  exists freq, check_letter_distribution_of letters total rnd = Ok freq /\
    (forall k, is_Some (freq !! Some k) -> k ∈ keys letters) /\
    (is_Some (freq !! None) <->
       exists i, i < total /\ get_random_letter_of letters (rnd i) = Ok None).
Proof.
  destruct (count_loop_spec letters (rnd <$> seq 0 total) ∅)
    as (counts & Hrun & _ & Hk).
  exists (frequency total <$> counts). split.
  { unfold check_letter_distribution_of. by rewrite Hrun. }
  split.
  - intros k. rewrite lookup_fmap, Hk, lookup_empty.
    destruct (occurrences letters (Some k) _) as [|n] eqn:Hocc;
      [intros [? [=]]|]. intros _.
    destruct (occurrences_pos letters (Some k) (rnd <$> seq 0 total))
      as (u & _ & Hret); [lia|].
    unfold get_random_letter_of in Hret. injection Hret as Hret.
    exact (SamplerFacts.loop_key _ _ _ Hret).
  - rewrite lookup_fmap, Hk, lookup_empty. split.
    + destruct (occurrences letters None _) as [|n] eqn:Hocc;
        [intros [? [=]]|]. intros _.
      destruct (occurrences_pos letters None (rnd <$> seq 0 total))
        as (u & Hu & Hret); [lia|].
      apply list_elem_of_fmap in Hu as (i & -> & Hi). apply elem_of_seq in Hi.
      exists i. split; [lia | done].
    + intros (i & Hi & Hret).
      assert (Hpos : 0 < occurrences letters None (rnd <$> seq 0 total)).
      { apply (occurrences_found letters None _ (rnd i)); [|done].
        apply list_elem_of_fmap. exists i. split; [done|].
        apply elem_of_seq. lia. }
      destruct (occurrences letters None _) as [|n]; [lia|]. by eexists.
Qed.

Lemma check_letter_distribution_keys_witness :
  let letters := [("a", 0%Q); ("b", 0%Q)]%string in
  (exists i, i < 3 /\ get_random_letter_of letters 0.5%Q = Ok None) /\
  exists freq, check_letter_distribution_of letters 3 (λ _, 0.5%Q) = Ok freq /\
    is_Some (freq !! None).
Proof.
  intros letters.
  assert (H : exists i, i < 3 /\ get_random_letter_of letters 0.5%Q = Ok None).
  { exists 0. split; [lia | reflexivity]. }
  split; [exact H|].
  destruct (check_letter_distribution_keys letters 3 (λ _, 0.5%Q))
    as (freq & Hrun & _ & Hnone).
  exists freq. split; [exact Hrun | exact (proj2 Hnone H)].
Defined.

End DistributionFacts.

(** * Properties of clearing the output directory *)

Module CleanupFacts.
Import Batch Cleanup.

Lemma clear_entry_present (file : string) (d : Listing) :
  is_Some (d !! file) -> clear_entry file d = Done (delete file d).
Proof.
  intros [e He]. unfold clear_entry, rmtree, remove. rewrite He.
  by destruct e.
Qed.

Lemma clear_loop_spec (files : list string) (d : Listing) :
  NoDup files -> (forall f, f ∈ files -> is_Some (d !! f)) ->
  exists d', clear_loop files d = Done d' /\
    forall k, d' !! k = if decide (k ∈ files) then None else d !! k.
Proof.
  revert d; induction files as [|f files IH]; intros d Hnd Hin.
  - exists d. split; [done|]. intros k. rewrite decide_False; [done|].
    apply not_elem_of_nil.
  - apply NoDup_cons in Hnd as [Hf Hnd]. simpl.
    rewrite clear_entry_present by (apply Hin; left).
    destruct (IH (delete f d) Hnd) as (d' & Hrun & Hd').
    { intros g Hg. rewrite lookup_delete_ne by (intros ->; done).
      apply Hin. by right. }
    exists d'. split; [done|]. intros k. rewrite Hd'.
    destruct (decide (k = f)) as [->|Hne].
    + rewrite (decide_False (P := f ∈ files)) by done.
      rewrite decide_True by left. apply lookup_delete_eq.
    + rewrite lookup_delete_ne by done.
      destruct (decide (k ∈ files)) as [Hk|Hk].
      * rewrite decide_True by (by right). done.
      * rewrite decide_False; [done|]. rewrite elem_of_cons. tauto.
Qed.

(** X16.  [clear_output_dir] empties the directory, whatever mix of
    files and subdirectories it holds, and raises nothing: a subdirectory
    goes with [rmtree], a file through the [OSError] handler with
    [os.remove].  In particular the directory a batch run leaves is empty
    after it. *)
Theorem clear_output_dir_empties (d : Listing) :
  clear_output_dir d = Done ∅ /\
  forall out : Dir, clear_output_dir (files_of out) = Done ∅.
Proof.
  assert (H : forall d : Listing, clear_output_dir d = Done ∅).
  { clear d. intros d. unfold clear_output_dir, listdir.
    destruct (clear_loop_spec ((map_to_list d).*1) d) as (d' & Hrun & Hd').
    - apply NoDup_fst_map_to_list.
    - intros f Hf. apply list_elem_of_fmap in Hf as ([f' e] & -> & Hf).
      apply elem_of_map_to_list in Hf. by exists e.
    - rewrite Hrun. f_equal. apply map_eq. intros k.
      rewrite Hd', lookup_empty.
      destruct (decide (k ∈ (map_to_list d).*1)) as [Hk|Hk]; [done|].
      destruct (d !! k) as [e|] eqn:He; [|done].
      exfalso. apply Hk. apply list_elem_of_fmap. exists (k, e).
      split; [done|]. by apply elem_of_map_to_list. }
  split; [apply H | intros out; apply H].
Qed.

End CleanupFacts.
